(** * MBA Copilot: the ingestion and retrieval pipeline of [api/index.py]

    A shallow embedding of the document chunker, the upload path and the chat
    path of the FastAPI backend, with the properties the specification states
    about them.

    Python values are modelled as follows.
    - [str] is a list of Unicode code points ([N]); [len] counts code points,
      as Python does.
    - Indices are [Z]: [str.rfind] answers [-1], and the chunker clamps a
      negative [start].
    - A [float] is a binary64 number ([PrimFloat.float]).
    - The [while] loop of [chunk_text] is a step function iterated under a
      fuel bound; termination is a theorem, not an assumption.
    - The external services (PDF and DOCX parsers, embedding provider, vector
      index, clock and random source) and the Unicode case tables are fields
      of a record of oracles. *)

From Stdlib Require Import ZArith List Lia Floats String Ascii Bool DecimalString.
From Stdlib Require DecimalZ.
From stdpp Require Import gmap list.

Set Warnings "-inexact-float".
Local Open Scope Z_scope.

(** ** Python strings *)

Definition char : Type := N.
Definition str : Type := list char.

Definition ord (a : ascii) : char := N_of_ascii a.

(** [lit "abc"] is the [str] of an ASCII literal. *)
Fixpoint lit (s : string) : str :=
  match s with
  | EmptyString => []
  | String a r => ord a :: lit r
  end.

Definition LF : char := 10%N.
Definition CR : char := 13%N.

(** [len(s)], for a string or a list. *)
Definition len {A : Type} (s : list A) : Z := Z.of_nat (length s).

(** [str.isspace] on one code point: the characters of category Zs or of
    bidirectional class WS, B or S. *)
Definition isspace (c : char) : bool :=
  ((9 <=? c) && (c <=? 13) || (28 <=? c) && (c <=? 32)
   || (c =? 133) || (c =? 160) || (c =? 5760)
   || (8192 <=? c) && (c <=? 8202)
   || (c =? 8232) || (c =? 8233) || (c =? 8239) || (c =? 8287)
   || (c =? 12288))%N.

Fixpoint lstrip (s : str) : str :=
  match s with
  | [] => []
  | c :: r => if isspace c then lstrip r else s
  end.

Definition rstrip (s : str) : str := rev (lstrip (rev s)).

(** [s.strip()] *)
Definition strip (s : str) : str := rstrip (lstrip s).

(** [s.startswith(sub)] *)
Fixpoint startswith (s sub : str) {struct sub} : bool :=
  match sub, s with
  | [], _ => true
  | _ :: _, [] => false
  | a :: sub', b :: s' => (a =? b)%N && startswith s' sub'
  end.

(** [s.replace(old, new)] for a non-empty [old]: occurrences are replaced from
    left to right and do not overlap; [skip] counts the characters of the
    occurrence just replaced that are still to be passed over. *)
Fixpoint replace_from (old new s : str) (skip : nat) : str :=
  match s with
  | [] => []
  | c :: r =>
      match skip with
      | S k => replace_from old new r k
      | O =>
          if startswith s old
          then new ++ replace_from old new r (length old - 1)
          else c :: replace_from old new r O
      end
  end.

Definition replace (s old new : str) : str := replace_from old new s O.

(** An index of a slice or a search, brought into [0, n]: a negative index
    counts from the end. *)
Definition adjust_lo (n i : Z) : Z := if i <? 0 then Z.max (i + n) 0 else i.
Definition adjust_hi (n i : Z) : Z :=
  if i >? n then n else if i <? 0 then Z.max (i + n) 0 else i.

(** [s[lo:hi]], for a string or a list. *)
Definition slice {A : Type} (s : list A) (lo hi : Z) : list A :=
  let lo' := Z.min (adjust_lo (len s) lo) (len s) in
  let hi' := adjust_hi (len s) hi in
  firstn (Z.to_nat (hi' - lo')) (skipn (Z.to_nat lo') s).

(** The candidates [lo, lo + k) of a backward search, highest first. *)
Fixpoint rfind_scan (s sub : str) (lo : Z) (k : nat) : Z :=
  match k with
  | O => -1
  | S k' =>
      let i := lo + Z.of_nat k' in
      if startswith (skipn (Z.to_nat i) s) sub then i
      else rfind_scan s sub lo k'
  end.

(** [s.rfind(sub, lo, hi)]: the highest index [i] with [s[i:i+len(sub)] == sub]
    and the occurrence inside [s[lo:hi]]; [-1] when there is none. *)
Definition rfind (s sub : str) (lo hi : Z) : Z :=
  let lo' := adjust_lo (len s) lo in
  let hi' := adjust_hi (len s) hi in
  rfind_scan s sub lo' (Z.to_nat (hi' - len sub - lo' + 1)).

(** [sub in s] *)
Fixpoint contains (s sub : str) : bool :=
  startswith s sub ||
  match s with
  | [] => false
  | _ :: r => contains r sub
  end.

(** [not s] for a string. *)
Definition is_empty (s : str) : bool :=
  match s with [] => true | _ => false end.

(** ** Configuration *)

Module Config.
Definition EMBEDDING_DIMENSIONS : Z := 1536.
Definition CHUNK_SIZE : Z := 1000.
Definition CHUNK_OVERLAP : Z := 200.
Definition TOP_K : Z := 5.
Definition MIN_SCORE : float := 0.7%float.
End Config.

(** ** The chunker *)

Definition PARA_BREAK : str := [LF; LF].
Definition SENT_BREAK : str := lit ". ".
Definition CRLF : str := [CR; LF].

(** [text.replace('\r\n', '\n').strip()] *)
Definition normalize (text : str) : str := strip (replace text CRLF [LF]).

(** The value of [end] at the slice, for a window that begins at [start]. *)
Definition cut_point (text : str) (start : Z) : Z :=
  let end_ := start + Config.CHUNK_SIZE in
  if end_ <? len text then
    let para_break := rfind text PARA_BREAK (start + Config.CHUNK_SIZE / 2) end_ in
    if para_break >? 0 then para_break
    else
      let sent_break := rfind text SENT_BREAK (start + Config.CHUNK_SIZE / 2) end_ in
      if sent_break >? 0 then sent_break + 1 else end_
  else end_.

(** The state of the loop: [start] and the chunks appended so far. *)
Record loop_state : Type := LoopState { ls_start : Z; ls_chunks : list str }.

(** One iteration of the [while] body. *)
Definition loop_body (text : str) (st : loop_state) : loop_state :=
  let start := ls_start st in
  let end_ := cut_point text start in
  let chunk := strip (slice text start end_) in
  let chunks := if is_empty chunk then ls_chunks st else ls_chunks st ++ [chunk] in
  let start' := end_ - Config.CHUNK_OVERLAP in
  LoopState (if start' <? 0 then 0 else start') chunks.

(** [while start < len(text): body], cut off after [fuel] tests of the
    condition; [None] when the fuel is used up before the loop exits. *)
Fixpoint while_loop (fuel : nat) (text : str) (st : loop_state) : option (list str) :=
  match fuel with
  | O => None
  | S fuel' =>
      if ls_start st <? len text
      then while_loop fuel' text (loop_body text st)
      else Some (ls_chunks st)
  end.

(** [chunk_text] under a fuel bound. *)
Definition chunk_text_fuel (fuel : nat) (text : str) : option (list str) :=
  let text := normalize text in
  if len text <=? Config.CHUNK_SIZE
  then Some (if is_empty text then [] else [text])
  else while_loop fuel text (LoopState 0 []).

(** [chunk_text]: the loop is run with one unit of fuel per character and one
    more, which [while_loop_enough] shows is never used up. *)
Definition chunk_text (text : str) : list str :=
  match chunk_text_fuel (S (length (normalize text))) text with
  | Some chunks => chunks
  | None => []
  end.

(** ** Exceptions *)

Inductive exn : Type :=
| HTTPException (status_code : Z) (detail : str)
| Exception (message : str).

(** A computation that returns a value or raises. *)
Definition result (A : Type) : Type := (exn + A)%type.

Definition Ok {A : Type} (a : A) : result A := inr a.
Definition raise {A : Type} (e : exn) : result A := inl e.

Definition bind {A B : Type} (m : result A) (k : A -> result B) : result B :=
  match m with
  | inl e => inl e
  | inr a => k a
  end.

Notation "'let*' x ':=' m 'in' k" := (bind m (fun x => k))
  (at level 10, x name, m at level 100, k at level 200, only parsing).

(** [str(i)] for an integer. *)
Definition str_of_int (i : Z) : str := lit (NilZero.string_of_int (Z.to_int i)).

(** [str(e)]; an [HTTPException] prints as its status and detail. *)
Definition exn_str (e : exn) : str :=
  match e with
  | HTTPException c d => str_of_int c ++ lit ": " ++ d
  | Exception m => m
  end.

(** A call into an external library or service: its value, or the message of
    the exception it raised. *)
Definition call {A : Type} (r : str + A) : result A :=
  match r with
  | inl m => raise (Exception m)
  | inr a => Ok a
  end.

(** ** JSON values and request dictionaries *)

#[warnings="-register-all"] Inductive json : Type :=
| JNull
| JBool (b : bool)
| JNum (x : float)
| JStr (s : str)
| JArr (l : list json)
| JObj (l : list (str * json)).

(** A [dict] of a request body. *)
Abbreviation dict := (gmap str json).

(** [d[key]]: a missing key raises [KeyError], which prints as the quoted key. *)
Definition getitem (d : dict) (key : str) : result json :=
  match d !! key with
  | Some v => Ok v
  | None => raise (Exception (lit "'" ++ key ++ lit "'"))
  end.

(** [sep.join(parts)] *)
Fixpoint join (sep : str) (parts : list str) : str :=
  match parts with
  | [] => []
  | [p] => p
  | p :: rest => p ++ sep ++ join sep rest
  end.

(** [s.endswith(suffix)] *)
Definition endswith (s suffix : str) : bool := startswith (rev s) (rev suffix).

(** The lowercase of an ASCII character. *)
Definition lower_char (c : char) : char :=
  if ((65 <=? c) && (c <=? 90))%N then (c + 32)%N else c.

(** [s.lower()], from index [i] of [whole] on. An ASCII character is lowered
    by the ASCII rule. A character outside ASCII is replaced by what the
    Unicode case tables give for it, which may be several characters and, for
    a capital sigma, depends on its neighbours: [special whole i] is that
    replacement for the character at index [i] of [whole]. *)
Fixpoint lower_from (special : str -> nat -> str) (whole : str) (i : nat) (s : str)
  : str :=
  match s with
  | [] => []
  | c :: r =>
      (if (c <? 128)%N then [lower_char c] else special whole i)
      ++ lower_from special whole (S i) r
  end.

(** [s.lower()] *)
Definition lower (special : str -> nat -> str) (s : str) : str :=
  lower_from special s 0 s.

(** ** Decoding UTF-8 *)

Definition in_range (lo hi b : N) : bool := ((lo <=? b) && (b <=? hi))%N.
Definition continuation (b : N) : bool := in_range 128 191 b.

(** The strict decoder: overlong forms, surrogates and code points above
    U+10FFFF are refused. [None] stands for [UnicodeDecodeError]. *)
Fixpoint utf8_decode (bs : list N) : option str :=
  match bs with
  | [] => Some []
  | b0 :: r0 =>
      if (b0 <? 128)%N then option_map (cons b0) (utf8_decode r0)
      else if in_range 194 223 b0 then
        match r0 with
        | b1 :: r1 =>
            if continuation b1
            then option_map (cons ((b0 - 192) * 64 + (b1 - 128))%N) (utf8_decode r1)
            else None
        | _ => None
        end
      else if in_range 224 239 b0 then
        match r0 with
        | b1 :: b2 :: r2 =>
            if in_range (if (b0 =? 224)%N then 160 else 128)
                        (if (b0 =? 237)%N then 159 else 191) b1
               && continuation b2
            then option_map
                   (cons ((b0 - 224) * 4096 + (b1 - 128) * 64 + (b2 - 128))%N)
                   (utf8_decode r2)
            else None
        | _ => None
        end
      else if in_range 240 244 b0 then
        match r0 with
        | b1 :: b2 :: b3 :: r3 =>
            if in_range (if (b0 =? 240)%N then 144 else 128)
                        (if (b0 =? 244)%N then 143 else 191) b1
               && continuation b2 && continuation b3
            then option_map
                   (cons ((b0 - 240) * 262144 + (b1 - 128) * 4096
                          + (b2 - 128) * 64 + (b3 - 128))%N)
                   (utf8_decode r3)
            else None
        | _ => None
        end
      else None
  end.

(** [content.decode('utf-8')] *)
Definition decode (content : list Byte.byte) : option str :=
  utf8_decode (map Byte.to_N content).

(** ** Records of the pipeline *)

Definition vector : Type := list float.

Record UploadFile : Type := {
  uf_filename : str;
  uf_content : list Byte.byte
}.

(** The [metadata] dictionary of a stored chunk. *)
Record chunk_metadata : Type := {
  md_text : str;
  md_document_id : str;
  md_filename : str;
  md_chunk_index : Z;
  md_total_chunks : Z;
  md_uploaded_at : str;
  md_is_first_chunk : bool
}.

(** An element of the list [chunks] that [upload] builds. *)
Record chunk_record : Type := {
  cr_id : str;
  cr_embedding : vector;
  cr_metadata : chunk_metadata
}.

(** An element of the list that [query_similar] returns. *)
Record retrieved_match : Type := {
  rm_id : str;
  rm_score : float;
  rm_text : str;
  rm_filename : str;
  rm_metadata : dict
}.

(** An element of [sources] in a [ChatResponse]. *)
Record source : Type := {
  src_text : str;
  src_score : float;
  src_filename : str
}.

(** A message of a chat completion request. *)
Record message : Type := { msg_role : json; msg_content : json }.

Record ChatRequest : Type := {
  req_message : str;
  req_history : option (list dict)
}.

Record ChatResponse : Type := {
  resp_answer : str;
  resp_sources : list source
}.

Record UploadResponse : Type := {
  up_success : bool;
  up_document_id : str;
  up_filename : str;
  up_chunks : Z
}.

(** ** The external services

    [index] is the state of the vector index. Each call answers a value, or
    the message of the exception it raises. *)
Record services (index : Type) : Type := {
  (* fitz: the text of each page of the PDF *)
  pdf_pages : list Byte.byte -> str + list str;
  (* python-docx: the text of each paragraph *)
  docx_paragraphs : list Byte.byte -> str + list str;
  (* str(e) of the UnicodeDecodeError for these bytes *)
  decode_error : list Byte.byte -> str;
  (* str.lower on the character outside ASCII at an index of a string: the
     Unicode case tables *)
  lower_special : str -> nat -> str;
  (* client.embeddings.create on one text and on a list of texts *)
  embed_one : str -> str + vector;
  embed_batch : list str -> str + list vector;
  (* index.upsert: the index after the call, and the failure if any *)
  upsert : list chunk_record -> index -> option str * index;
  (* index.query with include_metadata *)
  query : index -> vector -> Z -> str + list retrieved_match;
  (* client.chat.completions.create: the content of the first choice *)
  chat_completion : list message -> str + str;
  (* int(time.time()), the six random letters, datetime.utcnow().isoformat() *)
  time_now : Z;
  random_letters : str;
  utcnow_iso : str
}.

Arguments pdf_pages {index}.
Arguments docx_paragraphs {index}.
Arguments decode_error {index}.
Arguments lower_special {index}.
Arguments embed_one {index}.
Arguments embed_batch {index}.
Arguments upsert {index}.
Arguments query {index}.
Arguments chat_completion {index}.
Arguments time_now {index}.
Arguments random_letters {index}.
Arguments utcnow_iso {index}.

Definition SYSTEM_PROMPT : str :=
  lit "You are an intelligent assistant for MBA students. Your role is to:" ++ [LF] ++
  lit "- Help students understand their course materials" ++ [LF] ++
  lit "- Explain concepts clearly and concisely" ++ [LF] ++
  lit "- Connect ideas across different readings" ++ [LF] ++
  lit "- Provide practical business examples when relevant" ++ [LF] ++
  [LF] ++
  lit "When answering questions:" ++ [LF] ++
  lit "1. Base your answers on the provided context from the student's documents" ++ [LF] ++
  lit "2. If the context doesn't contain relevant information, say so" ++ [LF] ++
  lit "3. Use clear, professional language appropriate for business school" ++ [LF] ++
  lit "4. Cite which documents you're drawing from when relevant".

Section Pipeline.
Context {index : Type} (env : services index).

(** *** Document processing *)

Definition extract_text (file : UploadFile) : result str :=
  let content := uf_content file in
  let filename := lower (lower_special env) (uf_filename file) in
  if endswith filename (lit ".pdf") then
    let* pages := call (pdf_pages env content) in
    Ok (concat pages)
  else if endswith filename (lit ".docx") then
    let* paragraphs := call (docx_paragraphs env content) in
    Ok (join [LF] paragraphs)
  else if endswith filename (lit ".txt") || endswith filename (lit ".md")
          || endswith filename (lit ".csv") then
    match decode content with
    | Some text => Ok text
    | None => raise (Exception (decode_error env content))
    end
  else
    raise (HTTPException 400 (lit "Unsupported file type: " ++ filename)).

Definition generate_document_id : str :=
  lit "doc_" ++ str_of_int (time_now env) ++ lit "_" ++ random_letters env.

(** *** Embeddings *)

Definition generate_embedding (text : str) : result vector :=
  call (embed_one env text).

Definition generate_embeddings_batch (texts : list str) : result (list vector) :=
  call (embed_batch env texts).

(** *** Index operations *)

(** The batches [chunks[i:i + 100]] for [i] in [range(0, len(chunks), 100)],
    upserted in turn; the first failure ends the loop. *)
Fixpoint store_batches (fuel : nat) (chunks : list chunk_record) (idx : index)
  : option str * index :=
  match fuel, chunks with
  | _, [] => (None, idx)
  | O, _ => (None, idx)
  | S fuel', _ =>
      match upsert env (firstn 100 chunks) idx with
      | (Some e, idx') => (Some e, idx')
      | (None, idx') => store_batches fuel' (skipn 100 chunks) idx'
      end
  end.

Definition store_chunks (chunks : list chunk_record) (idx : index)
  : option str * index :=
  store_batches (length chunks) chunks idx.

Definition query_similar (idx : index) (embedding : vector) (top_k : option Z)
  : result (list retrieved_match) :=
  let k := match top_k with
           | Some k => if k =? 0 then Config.TOP_K else k
           | None => Config.TOP_K
           end in
  call (query env idx embedding k).

(** *** Answer generation *)

Definition system (content : str) : message :=
  {| msg_role := JStr (lit "system"); msg_content := JStr content |}.

Definition CONTEXT_HEAD : str :=
  lit "Here is relevant information from the student's documents:" ++ [LF; LF].
Definition CONTEXT_TAIL : str :=
  [LF; LF] ++ lit "Use this to answer the question. Cite sources when appropriate.".
Definition NO_DOCUMENTS : str :=
  lit "No relevant documents were found. Let the student know they should "
  ++ lit "upload relevant materials, but still try to help with general knowledge.".

(** The second system message: the context block, or the notice. *)
Definition context_message (context : str) : message :=
  if is_empty context then system NO_DOCUMENTS
  else system (CONTEXT_HEAD ++ context ++ CONTEXT_TAIL).

(** [{"role": msg["role"], "content": msg["content"]}] *)
Definition history_message (msg : dict) : result message :=
  let* role := getitem msg (lit "role") in
  let* content := getitem msg (lit "content") in
  Ok {| msg_role := role; msg_content := content |}.

(** The loop over [history[-6:]], appending to [messages]. *)
Fixpoint append_history (turns : list dict) (messages : list message)
  : result (list message) :=
  match turns with
  | [] => Ok messages
  | msg :: rest =>
      let* m := history_message msg in
      append_history rest (messages ++ [m])
  end.

(** The list [messages] that [generate_answer] sends. *)
Definition build_messages (question context : str) (history : option (list dict))
  : result (list message) :=
  let messages := [system SYSTEM_PROMPT] in
  let messages := messages ++ [context_message context] in
  let* messages :=
    match history with
    | Some ((_ :: _) as h) => append_history (slice h (-6) (len h)) messages
    | _ => Ok messages
    end in
  Ok (messages ++ [{| msg_role := JStr (lit "user"); msg_content := JStr question |}]).

Definition generate_answer (question context : str) (history : option (list dict))
  : result str :=
  let* messages := build_messages question context history in
  call (chat_completion env messages).

(** *** The chat endpoint *)

(** [[c for c in similar if c["score"] >= config.MIN_SCORE]] *)
Definition relevant (similar : list retrieved_match) : list retrieved_match :=
  List.filter (fun c => PrimFloat.leb Config.MIN_SCORE (rm_score c)) similar.

Definition source_block (c : retrieved_match) : str :=
  lit "[Source: " ++ rm_filename c ++ lit "]" ++ [LF] ++ rm_text c.

Definition SEPARATOR : str := [LF; LF] ++ lit "---" ++ [LF; LF].

Definition build_context (relevant : list retrieved_match) : str :=
  match relevant with
  | [] => []
  | _ => join SEPARATOR (map source_block relevant)
  end.

Definition format_source (c : retrieved_match) : source :=
  {| src_text := if len (rm_text c) >? 200
                 then slice (rm_text c) 0 200 ++ lit "..."
                 else rm_text c;
     src_score := rm_score c;
     src_filename := rm_filename c |}.

(** [except Exception as e: raise HTTPException(status_code=500, detail=str(e))] *)
Definition server_error {A : Type} (m : result A) : result A :=
  match m with
  | inl e => raise (HTTPException 500 (exn_str e))
  | inr a => Ok a
  end.

Definition chat (idx : index) (request : ChatRequest) : result ChatResponse :=
  server_error (
    let* query_embedding := generate_embedding (req_message request) in
    let* similar := query_similar idx query_embedding None in
    let relevant := relevant similar in
    let context := build_context relevant in
    let* answer := generate_answer (req_message request) context (req_history request) in
    let sources := map format_source relevant in
    Ok {| resp_answer := answer; resp_sources := sources |}).

(** *** The upload endpoint *)

(** The records of the loop over [enumerate(zip(text_chunks, embeddings))],
    from index [i] on. *)
Fixpoint build_records (document_id filename uploaded_at : str) (total : Z)
    (i : Z) (pairs : list (str * vector)) : list chunk_record :=
  match pairs with
  | [] => []
  | (text_chunk, embedding) :: rest =>
      {| cr_id := document_id ++ lit "_chunk_" ++ str_of_int i;
         cr_embedding := embedding;
         cr_metadata :=
           {| md_text := text_chunk;
              md_document_id := document_id;
              md_filename := filename;
              md_chunk_index := i;
              md_total_chunks := total;
              md_uploaded_at := uploaded_at;
              md_is_first_chunk := (i =? 0) |} |}
      :: build_records document_id filename uploaded_at total (i + 1) rest
  end.

(** [except HTTPException: raise], then the clause of [server_error]. *)
Definition reraise_http {A : Type} (m : result A) : result A :=
  match m with
  | inl (HTTPException c d) => raise (HTTPException c d)
  | other => server_error other
  end.

(** The body of [upload] up to the call of [store_chunks]: the chunk texts
    and the records built from them. *)
Definition prepare_chunks (file : UploadFile) : result (list str * list chunk_record) :=
  let* text := extract_text file in
  if is_empty (strip text) then
    raise (HTTPException 400 (lit "Could not extract text from file"))
  else
    let text_chunks := chunk_text text in
    match text_chunks with
    | [] => raise (HTTPException 400 (lit "No content to process"))
    | _ =>
        let* embeddings := generate_embeddings_batch text_chunks in
        let document_id := generate_document_id in
        let uploaded_at := utcnow_iso env in
        Ok (text_chunks,
            build_records document_id (uf_filename file) uploaded_at
              (len text_chunks) 0 (combine text_chunks embeddings))
    end.

Definition upload (idx : index) (file : UploadFile) : result UploadResponse * index :=
  match prepare_chunks file with
  | inl e => (reraise_http (inl e), idx)
  | inr (text_chunks, chunks) =>
      match store_chunks chunks idx with
      | (Some e, idx') => (reraise_http (raise (Exception e)), idx')
      | (None, idx') =>
          (Ok {| up_success := true;
                 up_document_id := generate_document_id;
                 up_filename := uf_filename file;
                 up_chunks := len text_chunks |}, idx')
      end
  end.

End Pipeline.

(** ** Listing documents *)

(** A value of the metadata of a vector in the index. *)
Inductive meta_value : Type :=
| MStr (s : str)
| MInt (i : Z)
| MBool (b : bool).

#[global] Instance meta_value_eq_dec : EqDecision meta_value.
Proof. solve_decision. Defined.

(** The metadata of a vector in the index. *)
Abbreviation meta := (gmap str meta_value).

(** The [metadata] dictionary of a record, as [upload] writes it. *)
Definition metadata_dict (md : chunk_metadata) : meta :=
  <[lit "text" := MStr (md_text md)]>
    (<[lit "document_id" := MStr (md_document_id md)]>
       (<[lit "filename" := MStr (md_filename md)]>
          (<[lit "chunk_index" := MInt (md_chunk_index md)]>
             (<[lit "total_chunks" := MInt (md_total_chunks md)]>
                (<[lit "uploaded_at" := MStr (md_uploaded_at md)]>
                   (<[lit "is_first_chunk" := MBool (md_is_first_chunk md)]> ∅)))))).

(** An element of the list that [list_documents] returns; [None] is the
    [None] that [dict.get] answers for a missing key. *)
Record document : Type := {
  doc_id : option meta_value;
  doc_filename : option meta_value;
  doc_chunks : meta_value;
  doc_uploaded_at : meta_value
}.

(** The dictionary appended for a match with metadata. *)
Definition document_of (metadata : meta) : document :=
  {| doc_id := metadata !! lit "document_id";
     doc_filename := metadata !! lit "filename";
     doc_chunks := default (MInt 1) (metadata !! lit "total_chunks");
     doc_uploaded_at := default (MStr []) (metadata !! lit "uploaded_at") |}.

(** The loop over [results.matches]: a match without metadata, or with empty
    metadata, is passed over. *)
Fixpoint collect_documents (matches : list (option meta)) : list document :=
  match matches with
  | [] => []
  | None :: rest => collect_documents rest
  | Some metadata :: rest =>
      if bool_decide (metadata = ∅) then collect_documents rest
      else document_of metadata :: collect_documents rest
  end.

(** [list_documents]; [scan idx vector top_k] is [index.query] with the
    filter [is_first_chunk == True], answering the metadata of each match. *)
Definition list_documents {index : Type}
    (scan : index -> vector -> Z -> str + list (option meta)) (idx : index)
  : result (list document) :=
  let* matches :=
    call (scan idx (repeat 0%float (Z.to_nat Config.EMBEDDING_DIMENSIONS)) 1000) in
  Ok (collect_documents matches).

(** The endpoint [GET /api/documents]. *)
Definition get_documents {index : Type}
    (scan : index -> vector -> Z -> str + list (option meta)) (idx : index)
  : result (list document) :=
  server_error (list_documents scan idx).

(** The metadata that a query filtered on [is_first_chunk] answers for an
    index that holds [records]: that of the records flagged as first chunk. *)
Definition first_chunk_matches (records : list chunk_record) : list (option meta) :=
  map (fun r => Some (metadata_dict (cr_metadata r)))
      (List.filter (fun r => md_is_first_chunk (cr_metadata r)) records).

(** * Vocabulary of the properties *)

(** [c] is a contiguous substring of [s]. *)
Definition substring (c s : str) : Prop := exists pre post, s = pre ++ c ++ post.

(** [sub] occurs in [s] at index [i]: [s[i:i + len(sub)] == sub]. *)
Definition occurs_at (s sub : str) (i : Z) : Prop :=
  exists pre post, s = pre ++ sub ++ post /\ len pre = i.

(** [sub] occurs at [i] with the whole occurrence inside [s[lo:hi]]. *)
Definition occurs_within (s sub : str) (lo hi i : Z) : Prop :=
  lo <= i /\ i + len sub <= hi /\ occurs_at s sub i.

(** The region searched for a break: the second half of the window. *)
Definition region_lo (start : Z) : Z := start + 500.
Definition region_hi (start : Z) : Z := start + 1000.

(** The states at the head of the loop in a run of [chunk_text] on the
    normalised text [text]. *)
Inductive loop_reaches (text : str) : loop_state -> Prop :=
| reaches_entry : loop_reaches text (LoopState 0 [])
| reaches_next st :
    loop_reaches text st -> ls_start st < len text ->
    loop_reaches text (loop_body text st).

(** [i] is the nearest break to the window end: the highest index of an
    occurrence of [sub] that lies inside [s[lo:hi]]. *)
Definition nearest_break (s sub : str) (lo hi i : Z) : Prop :=
  occurs_within s sub lo hi i /\ forall j, occurs_within s sub lo hi j -> j <= i.

(** The chunks of a run stay within the bound and inside the text. *)
Definition chunk_ok (text chunk : str) : Prop :=
  len chunk <= Config.CHUNK_SIZE /\ substring chunk text.

(** The slice of a window: [text[lo:hi]], cut at the end of the text. *)
Definition window (text : str) (w : Z * Z) : str := slice text (fst w) (snd w).

(** The number of characters that two successive windows share. *)
Definition shared (w1 w2 : Z * Z) : Z :=
  Z.max 0 (Z.min (snd w1) (snd w2) - Z.max (fst w1) (fst w2)).

(** The four windows of a text of 2500 characters without breaks. *)
Definition windows_2500 : list (Z * Z) :=
  [(0, 1000); (800, 1800); (1600, 2500); (2400, 2500)].

(** [bool(s)] for a string. *)
Definition nonempty (s : str) : bool := negb (is_empty s).

(** A text of 2500 letters with one single space in the second window. *)
Definition letters_2500 : str :=
  repeat 97%N 1200 ++ [32%N] ++ repeat 98%N 1299.

(** 2500 ASCII characters of which the 1000 of the second window are
    spaces. *)
Definition blank_window_2500 : str :=
  repeat 97%N 800 ++ repeat 32%N 1000 ++ repeat 98%N 700.

(** A score that is a number and is not below [MIN_SCORE]. *)
Definition not_below_min (c : retrieved_match) : Prop :=
  PrimFloat.is_nan (rm_score c) = false
  /\ PrimFloat.ltb (rm_score c) Config.MIN_SCORE = false.

(** [kept] holds exactly the elements of [all] that satisfy [keep], in the
    order of [all]. *)
Inductive retains {A : Type} (keep : A -> Prop) : list A -> list A -> Prop :=
| retains_nil : retains keep [] []
| retains_keep a all kept :
    keep a -> retains keep all kept -> retains keep (a :: all) (a :: kept)
| retains_drop a all kept :
    ~ keep a -> retains keep all kept -> retains keep (a :: all) kept.

(** A match that carries the score [s] and nothing else. *)
Definition scored (s : float) : retrieved_match :=
  {| rm_id := []; rm_score := s; rm_text := []; rm_filename := []; rm_metadata := ∅ |}.

(** The results of [f] on each element, or the first exception. *)
Fixpoint traverse {A B : Type} (f : A -> result B) (l : list A) : result (list B) :=
  match l with
  | [] => Ok []
  | a :: rest =>
      let* b := f a in
      let* bs := traverse f rest in
      Ok (b :: bs)
  end.

(** The last message: the question of the user. *)
Definition user (question : str) : message :=
  {| msg_role := JStr (lit "user"); msg_content := JStr question |}.

(** The turns of a request: none when [history] is [None]. *)
Definition turns_of (history : option (list dict)) : list dict :=
  match history with
  | Some h => h
  | None => []
  end.

(** The format that the extension of a file name declares. *)
Inductive format : Type := Pdf | Docx | Text.

Definition declared_format {index : Type} (env : services index) (filename : str)
  : option format :=
  let filename := lower (lower_special env) filename in
  if endswith filename (lit ".pdf") then Some Pdf
  else if endswith filename (lit ".docx") then Some Docx
  else if endswith filename (lit ".txt") || endswith filename (lit ".md")
          || endswith filename (lit ".csv") then Some Text
  else None.

(** The bytes of the file are malformed for the format it declares: the
    parser of that format raises, or the bytes are not UTF-8. *)
Definition malformed {index : Type} (env : services index) (file : UploadFile) : Prop :=
  match declared_format env (uf_filename file) with
  | Some Pdf => exists m, pdf_pages env (uf_content file) = inl m
  | Some Docx => exists m, docx_paragraphs env (uf_content file) = inl m
  | Some Text => decode (uf_content file) = None
  | None => False
  end.

(** [detail] is the message of the failure of a malformed file: that of the
    parser of the declared format, or that of the decoder. *)
Definition failure_message {index : Type} (env : services index) (file : UploadFile)
    (detail : str) : Prop :=
  match declared_format env (uf_filename file) with
  | Some Pdf => pdf_pages env (uf_content file) = inl detail
  | Some Docx => docx_paragraphs env (uf_content file) = inl detail
  | Some Text => decode (uf_content file) = None
                 /\ detail = decode_error env (uf_content file)
  | None => False
  end.

(** A client error. *)
Definition is_4xx (status_code : Z) : Prop := 400 <= status_code < 500.

(** Services for the runs below: the parsers refuse every file, the provider
    answers one vector for each text, the index is the list of the records
    upserted so far, and a query answers two matches of low score. The file
    names of the runs are ASCII, so the case tables are not consulted. *)
Definition sample_services : services (list chunk_record) :=
  {| pdf_pages := fun _ => inl (lit "cannot open broken document");
     docx_paragraphs := fun _ => inl (lit "File is not a zip file");
     decode_error := fun _ => lit "'utf-8' codec can't decode byte";
     lower_special := fun s i => firstn 1 (skipn i s);
     embed_one := fun _ => inr [1%float; 0%float];
     embed_batch := fun texts => inr (map (fun _ => [1%float; 0%float]) texts);
     upsert := fun chunks idx => (None, idx ++ chunks);
     query := fun _ _ _ => inr [scored 0.5; scored 0.25];
     chat_completion := fun _ => inr (lit "Please upload your course materials.");
     time_now := 1700000000;
     random_letters := lit "qwerty";
     utcnow_iso := lit "2023-11-14T22:13:20" |}.

(** [notes.txt] holding the single byte [0xff], which is not UTF-8. *)
Definition broken_txt : UploadFile :=
  {| uf_filename := lit "notes.txt"; uf_content := [Byte.xff] |}.

(** [NOTES.TXT] holding [hello]. *)
Definition capitals_txt : UploadFile :=
  {| uf_filename := lit "NOTES.TXT";
     uf_content := [Byte.x68; Byte.x65; Byte.x6c; Byte.x6c; Byte.x6f] |}.

(** [notes.txt] holding [hello]. *)
Definition hello_txt : UploadFile :=
  {| uf_filename := lit "notes.txt";
     uf_content := [Byte.x68; Byte.x65; Byte.x6c; Byte.x6c; Byte.x6f] |}.

(** 1202 characters with one paragraph break at index 700. *)
Definition two_paragraphs : str :=
  repeat 97%N 700 ++ PARA_BREAK ++ repeat 98%N 500.

(** A question without history. *)
Definition npv_request : ChatRequest :=
  {| req_message := lit "What is net present value?"; req_history := None |}.

(** The windows of a run: for each iteration from [start] on, the pair of
    [start] and the cut of that iteration. *)
Fixpoint windows_from (fuel : nat) (text : str) (start : Z) : list (Z * Z) :=
  match fuel with
  | O => []
  | S fuel' =>
      if start <? len text
      then (start, cut_point text start)
             :: windows_from fuel' text (ls_start (loop_body text (LoopState start [])))
      else []
  end.

(** The windows of the run of [chunk_text] on the normalised text [text]. *)
Definition windows (text : str) : list (Z * Z) :=
  windows_from (S (length text)) text 0.

(** The windows from [start] on follow one another: each begins before the
    end of the text and is cut in its second half, the next begins
    [CHUNK_OVERLAP] characters before that cut, and the run ends once a window
    would begin at or after the end of the text. *)
Inductive window_chain (text : str) : Z -> list (Z * Z) -> Prop :=
| chain_end start : len text <= start -> window_chain text start []
| chain_next start cut ws :
    start < len text ->
    start + 500 <= cut <= start + 1000 ->
    window_chain text (cut - 200) ws ->
    window_chain text start ((start, cut) :: ws).

(** A chunk as the loop appends it: not empty, and without whitespace at
    either end. *)
Definition clean_chunk (chunk : str) : Prop := chunk <> [] /\ strip chunk = chunk.

(** The batches upserted one after the other; the first failure ends the
    run and the later batches are not sent. *)
Fixpoint upsert_all {index : Type} (env : services index)
    (batches : list (list chunk_record)) (idx : index) : option str * index :=
  match batches with
  | [] => (None, idx)
  | batch :: rest =>
      match upsert env batch idx with
      | (Some e, idx') => (Some e, idx')
      | (None, idx') => upsert_all env rest idx'
      end
  end.

(** The sizes of the batches of a list cut every hundred elements: all are
    full but the last, which is not empty. *)
Inductive batch_sizes {A : Type} : list (list A) -> Prop :=
| sizes_none : batch_sizes []
| sizes_last batch : (0 < length batch <= 100)%nat -> batch_sizes [batch]
| sizes_full batch next rest :
    length batch = 100%nat -> batch_sizes (next :: rest) ->
    batch_sizes (batch :: next :: rest).

(** A code point of the ASCII range. *)
Definition is_ascii (c : char) : bool := (c <? 128)%N.

(** [essay.txt] holding 2500 times the letter [a]. *)
Definition essay_txt : UploadFile :=
  {| uf_filename := lit "essay.txt"; uf_content := repeat Byte.x61 2500 |}.

(** A Unicode scalar value: a code point up to U+10FFFF that is not a
    surrogate. *)
Definition is_scalar (c : char) : Prop :=
  (c < 1114112 /\ ~ (55296 <= c <= 57343))%N.

(** The turns that [generate_answer] reads: the last six of the history. *)
Definition recent_turns (history : option (list dict)) : list dict :=
  skipn (length (turns_of history) - 6) (turns_of history).

(** A turn of a conversation, as the client sends it. *)
Definition turn (role content : string) : dict :=
  <[lit "role" := JStr (lit role)]> (<[lit "content" := JStr (lit content)]> ∅).

(** Six well-formed turns. *)
Definition six_turns : list dict :=
  [turn "user" "What is WACC?"; turn "assistant" "The weighted average cost of capital.";
   turn "user" "And CAPM?"; turn "assistant" "The capital asset pricing model.";
   turn "user" "Which one prices equity?"; turn "assistant" "CAPM does."].

(** A question after seven turns, the oldest of which has no key at all. *)
Definition long_request : ChatRequest :=
  {| req_message := lit "What is net present value?";
     req_history := Some ([∅] ++ six_turns) |}.


(** The preview of a text in a source: the text itself up to 200 characters,
    otherwise its first 200 characters and an ellipsis. *)
Definition preview_of (text preview : str) : Prop :=
  (len text <= 200 -> preview = text)
  /\ (200 < len text -> preview = firstn 200 text ++ lit "..." /\ len preview = 203).

(** A match of score 0.9 that cites [lecture.pdf]. *)
Definition lecture_match : retrieved_match :=
  {| rm_id := lit "doc_1_abcdef_chunk_0"; rm_score := 0.9%float;
     rm_text := lit "NPV discounts future cash flows.";
     rm_filename := lit "lecture.pdf"; rm_metadata := ∅ |}.

(** Services that differ from [sample_services] in the answer of the index:
    one match of high score and one of low score. *)
Definition lecture_services : services (list chunk_record) :=
  {| pdf_pages := pdf_pages sample_services;
     docx_paragraphs := docx_paragraphs sample_services;
     decode_error := decode_error sample_services;
     lower_special := lower_special sample_services;
     embed_one := embed_one sample_services;
     embed_batch := embed_batch sample_services;
     upsert := upsert sample_services;
     query := fun _ _ _ => inr [lecture_match; scored 0.5];
     chat_completion := fun _ => inr (lit "It is the sum of discounted cash flows.");
     time_now := time_now sample_services;
     random_letters := random_letters sample_services;
     utcnow_iso := utcnow_iso sample_services |}.

(** * Properties *)

(** ** Strings *)

Lemma len_nonneg {A : Type} (s : list A) : 0 <= len s.
Proof. unfold len. lia. Qed.

Lemma len_app {A : Type} (a b : list A) : len (a ++ b) = len a + len b.
Proof. unfold len. rewrite length_app. lia. Qed.

Lemma substring_refl s : substring s s.
Proof. exists [], []. now rewrite app_nil_r. Qed.

Lemma substring_trans a b c : substring a b -> substring b c -> substring a c.
Proof.
  intros [p1 [q1 ->]] [p2 [q2 ->]].
  exists (p2 ++ p1), (q1 ++ q2). now rewrite <- !app_assoc.
Qed.

Lemma substring_length c s : substring c s -> (length c <= length s)%nat.
Proof. intros [p [q ->]]. rewrite !length_app. lia. Qed.

Lemma lstrip_suffix s : exists pre, s = pre ++ lstrip s /\ forallb isspace pre = true.
Proof.
  induction s as [|c r [pre [E W]]]; simpl.
  - now exists [].
  - destruct (isspace c) eqn:Hc.
    + exists (c :: pre). simpl. rewrite Hc, W. now rewrite <- E.
    + now exists [].
Qed.

Lemma lstrip_head s c r : lstrip s = c :: r -> isspace c = false.
Proof.
  induction s as [|a s IH]; simpl; [discriminate|].
  destruct (isspace a) eqn:Ha; [exact IH|].
  intros [= -> _]. exact Ha.
Qed.

Lemma lstrip_blank s : forallb isspace s = true -> lstrip s = [].
Proof.
  induction s as [|c r IH]; simpl; [reflexivity|].
  intros [Hc Hr]%andb_prop. rewrite Hc. auto.
Qed.

Lemma lstrip_id c r : isspace c = false -> lstrip (c :: r) = c :: r.
Proof. intros H. simpl. now rewrite H. Qed.

Lemma strip_substring s : substring (strip s) s.
Proof.
  unfold strip, rstrip.
  destruct (lstrip_suffix s) as [pre [E _]].
  destruct (lstrip_suffix (rev (lstrip s))) as [post [E' _]].
  exists pre, (rev post).
  rewrite <- rev_app_distr, <- E', rev_involutive. exact E.
Qed.

Lemma strip_length s : (length (strip s) <= length s)%nat.
Proof. apply substring_length, strip_substring. Qed.

Lemma strip_blank s : forallb isspace s = true -> strip s = [].
Proof. intros H. unfold strip. now rewrite (lstrip_blank s H). Qed.

(** A string that begins and ends with a character that is not whitespace is
    its own [strip]. *)
Lemma strip_id a mid z :
  isspace a = false -> isspace z = false ->
  strip (a :: mid ++ [z]) = a :: mid ++ [z].
Proof.
  intros Ha Hz. unfold strip, rstrip. rewrite (lstrip_id a _ Ha).
  change (a :: mid ++ [z]) with ((a :: mid) ++ [z]).
  rewrite rev_app_distr.
  change (rev [z] ++ rev (a :: mid)) with (z :: rev (a :: mid)).
  rewrite (lstrip_id z _ Hz).
  change (z :: rev (a :: mid)) with (rev [z] ++ rev (a :: mid)).
  now rewrite <- rev_app_distr, rev_involutive.
Qed.

Lemma strip_singleton a : isspace a = false -> strip [a] = [a].
Proof.
  intros Ha. unfold strip, rstrip. rewrite (lstrip_id a _ Ha). simpl. now rewrite Ha.
Qed.

(** The first character of a stripped string is not whitespace. *)
Lemma strip_head s c r : strip s = c :: r -> isspace c = false.
Proof.
  unfold strip, rstrip. intros H.
  destruct (lstrip s) as [|a t] eqn:E; [discriminate|].
  pose proof (lstrip_head _ _ _ E) as Ha.
  destruct (lstrip_suffix (rev (a :: t))) as [pre [E' _]].
  apply (f_equal (@rev char)) in E'. rewrite rev_involutive, rev_app_distr in E'.
  rewrite H in E'. simpl in E'. now injection E' as -> _.
Qed.

(** The last character of a stripped string is not whitespace. *)
Lemma strip_last s r c : strip s = r ++ [c] -> isspace c = false.
Proof.
  unfold strip, rstrip. intros H.
  apply (f_equal (@rev char)) in H. rewrite rev_involutive, rev_app_distr in H.
  simpl in H. exact (lstrip_head _ _ _ H).
Qed.

Lemma startswith_spec s sub :
  startswith s sub = true <-> exists rest, s = sub ++ rest.
Proof.
  revert s. induction sub as [|a sub IH]; intros s; simpl.
  - split; [intros _; now exists s | intros _; now destruct s].
  - destruct s as [|b s].
    + split; [discriminate | intros [rest H]; discriminate].
    + simpl. rewrite andb_true_iff, N.eqb_eq, IH. split.
      * intros [-> [rest ->]]. now exists rest.
      * intros [rest [= -> ->]]. split; [reflexivity | now exists rest].
Qed.

Lemma startswith_skipn s sub (i : Z) :
  0 <= i <= len s ->
  startswith (skipn (Z.to_nat i) s) sub = true <-> occurs_at s sub i.
Proof.
  intros Hi. rewrite startswith_spec. unfold occurs_at, len in *. split.
  - intros [rest E]. exists (firstn (Z.to_nat i) s), rest. split.
    + now rewrite <- E, firstn_skipn.
    + rewrite length_firstn. lia.
  - intros [pre [post [-> E]]]. exists post.
    replace (Z.to_nat i) with (length pre) by lia.
    now rewrite skipn_app, skipn_all, Nat.sub_diag.
Qed.

(** *** Backward search *)

Lemma rfind_scan_cases s sub lo k :
  0 <= lo -> (k <> 0%nat -> lo + Z.of_nat k - 1 <= len s) ->
  (rfind_scan s sub lo k = -1 /\
   forall j, lo <= j < lo + Z.of_nat k -> ~ occurs_at s sub j)
  \/
  (lo <= rfind_scan s sub lo k < lo + Z.of_nat k /\
   occurs_at s sub (rfind_scan s sub lo k) /\
   forall j, rfind_scan s sub lo k < j < lo + Z.of_nat k -> ~ occurs_at s sub j).
Proof.
  intros Hlo. induction k as [|k IH]; intros Hk.
  - left. split; [reflexivity | intros j Hj; lia].
  - specialize (Hk (Nat.neq_succ_0 k)). simpl rfind_scan.
    destruct (startswith (skipn (Z.to_nat (lo + Z.of_nat k)) s) sub) eqn:E.
    + right. apply startswith_skipn in E; [|lia].
      split; [lia|]. split; [exact E|]. intros j Hj. lia.
    + assert (~ occurs_at s sub (lo + Z.of_nat k)) as Hno.
      { intros O. apply startswith_skipn in O; [congruence | lia]. }
      destruct IH as [[R N] | [B [O N]]]; [lia | |].
      * left. split; [exact R|]. intros j Hj.
        destruct (Z.eq_dec j (lo + Z.of_nat k)) as [->|]; [exact Hno | apply N; lia].
      * right. split; [lia|]. split; [exact O|]. intros j Hj.
        destruct (Z.eq_dec j (lo + Z.of_nat k)) as [->|]; [exact Hno | apply N; lia].
Qed.

Lemma rfind_unfold s sub lo hi :
  0 <= lo -> 0 <= hi <= len s ->
  rfind s sub lo hi = rfind_scan s sub lo (Z.to_nat (hi - len sub - lo + 1)).
Proof.
  intros Hlo Hhi. unfold rfind, adjust_lo, adjust_hi.
  destruct (Z.ltb_spec lo 0); [lia|].
  destruct (Z.gtb_spec hi (len s)); [lia|].
  destruct (Z.ltb_spec hi 0); [lia|]. reflexivity.
Qed.

(** [rfind] answers [-1] when [sub] does not occur inside [s[lo:hi]], and the
    highest index of an occurrence inside [s[lo:hi]] otherwise. *)
Lemma rfind_cases s sub lo hi :
  0 <= lo -> 0 <= hi <= len s ->
  (rfind s sub lo hi = -1 /\ forall j, ~ occurs_within s sub lo hi j)
  \/
  (occurs_within s sub lo hi (rfind s sub lo hi) /\
   forall j, occurs_within s sub lo hi j -> j <= rfind s sub lo hi).
Proof.
  intros Hlo Hhi. rewrite (rfind_unfold s sub lo hi Hlo Hhi).
  pose proof (len_nonneg sub) as Hm.
  set (k := Z.to_nat (hi - len sub - lo + 1)).
  destruct (rfind_scan_cases s sub lo k Hlo) as [[R N] | [B [O N]]].
  - subst k. lia.
  - left. split; [exact R|]. intros j [H1 [H2 H3]]. apply (N j); [|exact H3].
    subst k. lia.
  - right. split.
    + split; [lia|]. split; [subst k; lia | exact O].
    + intros j [H1 [H2 H3]].
      destruct (Z_le_gt_dec j (rfind_scan s sub lo k)) as [L|G]; [exact L|].
      exfalso. apply (N j); [subst k; lia | exact H3].
Qed.

Lemma contains_false_skipn s sub n :
  contains s sub = false -> startswith (skipn n s) sub = false.
Proof.
  revert s. induction n as [|n IH]; intros s H.
  - destruct s; simpl in H; apply orb_false_iff in H; tauto.
  - destruct s as [|c r].
    + simpl in *. apply orb_false_iff in H. tauto.
    + simpl in H. apply orb_false_iff in H. simpl. apply IH. tauto.
Qed.

Lemma rfind_scan_absent s sub lo k :
  contains s sub = false -> rfind_scan s sub lo k = -1.
Proof.
  intros H. induction k as [|k IH]; simpl; [reflexivity|].
  now rewrite (contains_false_skipn s sub _ H).
Qed.

(** A string that does not contain [sub] has no occurrence to find. *)
Lemma rfind_absent s sub lo hi : contains s sub = false -> rfind s sub lo hi = -1.
Proof. intros H. unfold rfind. now apply rfind_scan_absent. Qed.

(** *** Slices *)

Lemma slice_substring {A : Type} (s : list A) lo hi :
  exists pre post, s = pre ++ slice s lo hi ++ post.
Proof.
  unfold slice.
  set (a := Z.to_nat (Z.min (adjust_lo (len s) lo) (len s))).
  set (b := Z.to_nat (adjust_hi (len s) hi - Z.min (adjust_lo (len s) lo) (len s))).
  exists (firstn a s), (skipn b (skipn a s)).
  now rewrite (firstn_skipn b), (firstn_skipn a).
Qed.

Lemma slice_len {A : Type} (s : list A) lo hi :
  0 <= lo -> 0 <= hi -> len (slice s lo hi) <= Z.max 0 (hi - lo).
Proof.
  intros Hlo Hhi. unfold slice, len, adjust_lo, adjust_hi.
  rewrite length_firstn.
  destruct (Z.ltb_spec lo 0); [lia|].
  destruct (Z.gtb_spec hi (Z.of_nat (length s)));
    destruct (Z.ltb_spec hi 0); lia.
Qed.

(** A slice with both ends inside the string. *)
Lemma slice_inside {A : Type} (s : list A) lo hi :
  0 <= lo <= hi -> hi <= len s ->
  slice s lo hi = firstn (Z.to_nat (hi - lo)) (skipn (Z.to_nat lo) s).
Proof.
  intros H1 H2. unfold slice, adjust_lo, adjust_hi.
  destruct (Z.ltb_spec lo 0); [lia|].
  destruct (Z.gtb_spec hi (len s)); [lia|].
  destruct (Z.ltb_spec hi 0); [lia|].
  now rewrite Z.min_l by lia.
Qed.

(** A slice that runs past the end of the string stops at the end. *)
Lemma slice_to_end {A : Type} (s : list A) lo hi :
  0 <= lo -> len s <= hi -> slice s lo hi = skipn (Z.to_nat lo) s.
Proof.
  intros H1 H2. unfold slice, adjust_lo, adjust_hi.
  destruct (Z.ltb_spec lo 0); [lia|].
  destruct (Z.gtb_spec hi (len s)).
  - destruct (Z.le_gt_cases lo (len s)).
    + rewrite Z.min_l by lia. apply firstn_all2. rewrite length_skipn. unfold len in *. lia.
    + rewrite Z.min_r by lia. rewrite Z.sub_diag. simpl.
      rewrite !skipn_all2; unfold len in *; [reflexivity | lia | lia].
  - assert (hi = len s) as -> by lia.
    destruct (Z.ltb_spec (len s) 0); [pose proof (len_nonneg s); lia|].
    destruct (Z.le_gt_cases lo (len s)).
    + rewrite Z.min_l by lia. apply firstn_all2. rewrite length_skipn. unfold len in *. lia.
    + rewrite Z.min_r by lia. rewrite Z.sub_diag. simpl.
      rewrite !skipn_all2; unfold len in *; [reflexivity | lia | lia].
Qed.

(** ** The chunker *)

Lemma chunk_size_value : Config.CHUNK_SIZE = 1000.
Proof. reflexivity. Qed.

Lemma chunk_half_value : Config.CHUNK_SIZE / 2 = 500.
Proof. reflexivity. Qed.

Lemma chunk_overlap_value : Config.CHUNK_OVERLAP = 200.
Proof. reflexivity. Qed.

(** The three cases of the cut of a window whose right edge is strictly before
    the end of the text. *)
Lemma cut_point_cases text start :
  0 <= start -> start + 1000 < len text ->
  let para := rfind text PARA_BREAK (region_lo start) (region_hi start) in
  let sent := rfind text SENT_BREAK (region_lo start) (region_hi start) in
  (occurs_within text PARA_BREAK (region_lo start) (region_hi start) para /\
   (forall j, occurs_within text PARA_BREAK (region_lo start) (region_hi start) j -> j <= para) /\
   cut_point text start = para)
  \/
  ((forall j, ~ occurs_within text PARA_BREAK (region_lo start) (region_hi start) j) /\
   occurs_within text SENT_BREAK (region_lo start) (region_hi start) sent /\
   (forall j, occurs_within text SENT_BREAK (region_lo start) (region_hi start) j -> j <= sent) /\
   cut_point text start = sent + 1)
  \/
  ((forall j, ~ occurs_within text PARA_BREAK (region_lo start) (region_hi start) j) /\
   (forall j, ~ occurs_within text SENT_BREAK (region_lo start) (region_hi start) j) /\
   cut_point text start = start + 1000).
Proof.
  intros Hs He para sent. subst para sent. unfold cut_point.
  rewrite chunk_half_value, chunk_size_value.
  fold (region_lo start) (region_hi start).
  destruct (Z.ltb_spec (region_hi start) (len text)) as [_|C];
    [|unfold region_hi in C; lia].
  assert (0 <= region_lo start) as Hlo by (unfold region_lo; lia).
  assert (0 <= region_hi start <= len text) as Hhi by (unfold region_hi; lia).
  destruct (rfind_cases text PARA_BREAK _ _ Hlo Hhi) as [[Rp Np] | [Op Mp]].
  - rewrite Rp. simpl (-1 >? 0).
    destruct (rfind_cases text SENT_BREAK _ _ Hlo Hhi) as [[Rs Ns] | [Os Ms]].
    + rewrite Rs. simpl (-1 >? 0). right. right. auto.
    + right. left.
      assert ((rfind text SENT_BREAK (region_lo start) (region_hi start) >? 0) = true) as ->.
      { destruct Os as [L _]. apply Z.gtb_lt. unfold region_lo in *. lia. }
      auto.
  - left.
    assert ((rfind text PARA_BREAK (region_lo start) (region_hi start) >? 0) = true) as ->.
    { destruct Op as [L _]. apply Z.gtb_lt. unfold region_lo in *. lia. }
    auto.
Qed.

(** A window that reaches the end of the text is not searched. *)
Lemma cut_point_at_end text start :
  len text <= start + 1000 -> cut_point text start = start + 1000.
Proof.
  intros H. unfold cut_point. rewrite chunk_size_value.
  destruct (Z.ltb_spec (start + 1000) (len text)); [lia | reflexivity].
Qed.

(** The cut lies in the second half of the window. *)
Lemma cut_point_bounds text start :
  0 <= start -> start + 500 <= cut_point text start <= start + 1000.
Proof.
  intros Hs.
  destruct (Z_lt_le_dec (start + 1000) (len text)) as [L|G].
  - destruct (cut_point_cases text start Hs L)
      as [[[A [B _]] [_ ->]] | [[_ [[A [B _]] [_ ->]]] | [_ [_ ->]]]];
      unfold region_lo, region_hi in *.
    + change (len PARA_BREAK) with 2 in B. lia.
    + change (len SENT_BREAK) with 2 in B. lia.
    + lia.
  - rewrite cut_point_at_end by lia. lia.
Qed.

Lemma loop_body_start text st :
  0 <= ls_start st ->
  ls_start (loop_body text st) = cut_point text (ls_start st) - 200.
Proof.
  intros Hs. unfold loop_body. simpl. rewrite chunk_overlap_value.
  pose proof (cut_point_bounds text (ls_start st) Hs).
  destruct (Z.ltb_spec (cut_point text (ls_start st) - 200) 0); [lia | reflexivity].
Qed.

(** Every iteration moves [start] forward by at least 300. *)
Lemma loop_body_progress text st :
  0 <= ls_start st -> ls_start st + 300 <= ls_start (loop_body text st).
Proof.
  intros Hs. rewrite loop_body_start by exact Hs.
  pose proof (cut_point_bounds text (ls_start st) Hs). lia.
Qed.

Lemma loop_reaches_nonneg text st : loop_reaches text st -> 0 <= ls_start st.
Proof.
  induction 1 as [|st _ IH _]; [simpl; lia|].
  pose proof (loop_body_progress text st IH). lia.
Qed.

(** Enough fuel: one unit per 300 characters left, and one for the exit. *)
Lemma while_loop_enough fuel text st :
  0 <= ls_start st ->
  len text - ls_start st <= 300 * Z.of_nat fuel ->
  exists chunks, while_loop (S fuel) text st = Some chunks.
Proof.
  revert st. induction fuel as [|fuel IH]; intros st Hs Hf.
  - simpl. destruct (Z.ltb_spec (ls_start st) (len text)) as [L|G]; [lia | eauto].
  - change (while_loop (S (S fuel)) text st)
      with (if ls_start st <? len text
            then while_loop (S fuel) text (loop_body text st)
            else Some (ls_chunks st)).
    destruct (Z.ltb_spec (ls_start st) (len text)) as [L|G]; [|eauto].
    pose proof (loop_body_progress text st Hs). apply IH; lia.
Qed.

(** More fuel does not change the result. *)
Lemma while_loop_more fuel fuel' text st chunks :
  while_loop fuel text st = Some chunks -> (fuel <= fuel')%nat ->
  while_loop fuel' text st = Some chunks.
Proof.
  revert fuel' st. induction fuel as [|fuel IH]; intros fuel' st H L; [discriminate|].
  destruct fuel' as [|fuel']; [lia|]. simpl in *.
  destruct (ls_start st <? len text); [|exact H]. apply (IH fuel'); [exact H | lia].
Qed.

Lemma chunk_text_fuel_more fuel fuel' text chunks :
  chunk_text_fuel fuel text = Some chunks -> (fuel <= fuel')%nat ->
  chunk_text_fuel fuel' text = Some chunks.
Proof.
  unfold chunk_text_fuel. destruct (len (normalize text) <=? Config.CHUNK_SIZE); [auto|].
  apply while_loop_more.
Qed.

Lemma chunk_text_fuel_total text :
  exists chunks, chunk_text_fuel (S (length (normalize text))) text = Some chunks.
Proof.
  unfold chunk_text_fuel. destruct (len (normalize text) <=? Config.CHUNK_SIZE); [eauto|].
  apply while_loop_enough; simpl ls_start; unfold len; lia.
Qed.

(** A run that ends under any fuel gives the chunks of [chunk_text]. *)
Lemma chunk_text_of_fuel fuel text chunks :
  chunk_text_fuel fuel text = Some chunks -> chunk_text text = chunks.
Proof.
  intros H. unfold chunk_text.
  destruct (chunk_text_fuel_total text) as [c Hc]. rewrite Hc.
  destruct (Nat.le_ge_cases fuel (S (length (normalize text)))) as [L|L].
  - rewrite (chunk_text_fuel_more _ _ _ _ H L) in Hc. congruence.
  - rewrite (chunk_text_fuel_more _ _ _ _ Hc L) in H. congruence.
Qed.

(** C1. On every input, [chunk_text] ends after finitely many iterations. At
    every state the loop reaches with [start < len(text)], the cut lies
    strictly after [start], the next [start] is strictly greater, and an index
    answered by either backward search and used as a cut (that is, positive)
    lies strictly after [start]. The loop condition is tested at most
    [len(text) / 300 + 2] times, and any larger fuel gives the same chunks. *)
Theorem chunk_text_terminates (text : str) :
  (forall st,
      loop_reaches (normalize text) st ->
      ls_start st < len (normalize text) ->
      ls_start st < cut_point (normalize text) (ls_start st)
      /\ ls_start st < ls_start (loop_body (normalize text) st)
      /\ (ls_start st + Config.CHUNK_SIZE < len (normalize text) ->
          forall sub, sub = PARA_BREAK \/ sub = SENT_BREAK ->
            0 < rfind (normalize text) sub
                  (ls_start st + Config.CHUNK_SIZE / 2)
                  (ls_start st + Config.CHUNK_SIZE) ->
            ls_start st < rfind (normalize text) sub
                            (ls_start st + Config.CHUNK_SIZE / 2)
                            (ls_start st + Config.CHUNK_SIZE)))
  /\ exists (n : nat) (chunks : list str),
      Z.of_nat n <= len (normalize text) / 300 + 2
      /\ (forall fuel, (n <= fuel)%nat -> chunk_text_fuel fuel text = Some chunks)
      /\ chunk_text text = chunks.
Proof.
  split.
  - intros st R L. pose proof (loop_reaches_nonneg _ _ R) as Hs.
    pose proof (cut_point_bounds (normalize text) _ Hs).
    pose proof (loop_body_progress (normalize text) st Hs).
    split; [lia|]. split; [lia|].
    rewrite chunk_half_value, chunk_size_value. intros E sub _ P.
    destruct (rfind_cases (normalize text) sub (ls_start st + 500) (ls_start st + 1000))
      as [[Rn _] | [[Lo _] _]]; lia.
  - pose proof (len_nonneg (normalize text)) as Hn.
    set (fuel := Z.to_nat (len (normalize text) / 300 + 1)).
    assert (exists chunks, chunk_text_fuel (S fuel) text = Some chunks) as [chunks Hc].
    { unfold chunk_text_fuel.
      destruct (len (normalize text) <=? Config.CHUNK_SIZE); [eauto|].
      apply while_loop_enough; simpl ls_start; [lia|].
      subst fuel.
      pose proof (Z.div_mod (len (normalize text)) 300 ltac:(lia)).
      pose proof (Z.mod_pos_bound (len (normalize text)) 300 ltac:(lia)).
      pose proof (Z.div_pos (len (normalize text)) 300 Hn ltac:(lia)). lia. }
    exists (S fuel), chunks. split; [|split].
    + subst fuel.
      pose proof (Z.div_pos (len (normalize text)) 300 Hn ltac:(lia)). lia.
    + intros fuel' L. exact (chunk_text_fuel_more _ _ _ _ Hc L).
    + exact (chunk_text_of_fuel _ _ _ Hc).
Qed.

(** C5. For a window that begins at [start] and whose right edge
    [start + CHUNK_SIZE] lies strictly before the end of the text: if a
    paragraph break lies inside the second half of the window, the cut is the
    index of the nearest one to the window end; otherwise, if a sentence break
    lies there, the cut is just past the period of the nearest one; otherwise
    the cut is [start + CHUNK_SIZE]. The chunk of the window is the stripped
    slice from [start] to that cut. *)
Theorem cut_point_chooses (text : str) (start : Z) :
  0 <= start -> start + Config.CHUNK_SIZE < len text ->
  let lo := start + Config.CHUNK_SIZE / 2 in
  let hi := start + Config.CHUNK_SIZE in
  ((exists j, occurs_within text PARA_BREAK lo hi j) ->
   exists i, nearest_break text PARA_BREAK lo hi i /\ cut_point text start = i)
  /\ (~ (exists j, occurs_within text PARA_BREAK lo hi j) ->
      (exists j, occurs_within text SENT_BREAK lo hi j) ->
      exists i, nearest_break text SENT_BREAK lo hi i /\ cut_point text start = i + 1)
  /\ (~ (exists j, occurs_within text PARA_BREAK lo hi j) ->
      ~ (exists j, occurs_within text SENT_BREAK lo hi j) ->
      cut_point text start = start + Config.CHUNK_SIZE)
  /\ (forall chunks,
        loop_body text (LoopState start chunks)
        = LoopState (cut_point text start - Config.CHUNK_OVERLAP)
            (if is_empty (strip (slice text start (cut_point text start)))
             then chunks
             else chunks ++ [strip (slice text start (cut_point text start))])).
Proof.
  rewrite chunk_half_value, chunk_size_value. intros Hs He lo hi.
  subst lo hi. fold (region_lo start) (region_hi start).
  pose proof (cut_point_cases text start Hs He) as C. cbv zeta in C.
  repeat split.
  - intros [j Hj].
    destruct C as [[A [B E]] | [[N _] | [N _]]];
      [| exfalso; exact (N j Hj) | exfalso; exact (N j Hj)].
    eexists. split; [split; [exact A | exact B] | exact E].
  - intros NP [j Hj].
    destruct C as [[A _] | [[_ [A [B E]]] | [_ [N _]]]];
      [exfalso; apply NP; eauto | | exfalso; exact (N j Hj)].
    eexists. split; [split; [exact A | exact B] | exact E].
  - intros NP NS.
    destruct C as [[A _] | [[_ [A _]] | [_ [_ E]]]];
      [exfalso; apply NP; eauto | exfalso; apply NS; eauto | exact E].
  - intros chunks.
    pose proof (loop_body_start text (LoopState start chunks) Hs) as S.
    unfold loop_body in *. simpl ls_start in *. simpl ls_chunks.
    rewrite chunk_overlap_value in *. f_equal. exact S.
Qed.

Lemma loop_body_chunk_ok text st :
  0 <= ls_start st ->
  Forall (chunk_ok text) (ls_chunks st) ->
  Forall (chunk_ok text) (ls_chunks (loop_body text st)).
Proof.
  intros Hs F. unfold loop_body. simpl ls_chunks.
  destruct (is_empty _); [exact F|].
  apply Forall_app. split; [exact F|]. constructor; [|constructor].
  pose proof (cut_point_bounds text (ls_start st) Hs) as B.
  split.
  - pose proof (strip_length (slice text (ls_start st) (cut_point text (ls_start st)))).
    pose proof (slice_len text (ls_start st) (cut_point text (ls_start st)) Hs ltac:(lia)).
    rewrite chunk_size_value. unfold len in *. lia.
  - eapply substring_trans; [apply strip_substring|].
    destruct (slice_substring text (ls_start st) (cut_point text (ls_start st)))
      as [pre [post E]].
    now exists pre, post.
Qed.

Lemma while_loop_chunk_ok fuel text st chunks :
  0 <= ls_start st ->
  Forall (chunk_ok text) (ls_chunks st) ->
  while_loop fuel text st = Some chunks ->
  Forall (chunk_ok text) chunks.
Proof.
  revert st. induction fuel as [|fuel IH]; intros st Hs F H; [discriminate|].
  simpl in H. destruct (ls_start st <? len text).
  - apply (IH (loop_body text st)); [| apply loop_body_chunk_ok; assumption | exact H].
    pose proof (loop_body_progress text st Hs). lia.
  - now injection H as <-.
Qed.

(** C10. Every chunk that [chunk_text] returns has at most [CHUNK_SIZE]
    characters and is a contiguous substring of the normalised, trimmed
    input. *)
Theorem chunk_text_chunks_ok (text : str) :
  Forall (fun chunk => len chunk <= Config.CHUNK_SIZE
                       /\ substring chunk (normalize text))
         (chunk_text text).
Proof.
  change (Forall (chunk_ok (normalize text)) (chunk_text text)).
  destruct (chunk_text_fuel_total text) as [chunks H].
  rewrite (chunk_text_of_fuel _ _ _ H). unfold chunk_text_fuel in H.
  destruct (Z.leb_spec (len (normalize text)) Config.CHUNK_SIZE) as [L|L].
  - injection H as <-. destruct (is_empty (normalize text)); constructor; [|constructor].
    split; [exact L | apply substring_refl].
  - eapply while_loop_chunk_ok; [| | exact H]; [simpl; lia | constructor].
Qed.

(** *** Blank strings *)

Lemma lstrip_empty_iff s : lstrip s = [] <-> forallb isspace s = true.
Proof.
  split; [|apply lstrip_blank].
  induction s as [|c r IH]; simpl; [reflexivity|].
  destruct (isspace c); [exact IH | discriminate].
Qed.

Lemma forallb_reverse {A : Type} (f : A -> bool) l : forallb f (rev l) = forallb f l.
Proof.
  induction l as [|a l IH]; [reflexivity|].
  simpl. rewrite forallb_app, IH. simpl. rewrite andb_true_r. apply andb_comm.
Qed.

Lemma strip_empty_iff s : strip s = [] <-> forallb isspace s = true.
Proof.
  split; [|apply strip_blank].
  unfold strip, rstrip. intros H.
  apply (f_equal (@rev char)) in H. rewrite rev_involutive in H. simpl in H.
  apply lstrip_empty_iff in H. rewrite forallb_reverse in H.
  destruct (lstrip s) as [|c r] eqn:E; [now apply lstrip_empty_iff|].
  simpl in H. rewrite (lstrip_head _ _ _ E) in H. discriminate.
Qed.

Lemma replace_crlf_blank_le n s :
  (length s <= n)%nat ->
  forallb isspace (replace s CRLF [LF]) = forallb isspace s.
Proof.
  unfold replace. revert s. induction n as [|n IH]; intros s L.
  - destruct s; [reflexivity | simpl in L; lia].
  - destruct s as [|c r]; [reflexivity|].
    change (replace_from CRLF [LF] (c :: r) 0)
      with (if startswith (c :: r) CRLF
            then [LF] ++ replace_from CRLF [LF] r (length CRLF - 1)
            else c :: replace_from CRLF [LF] r 0).
    destruct (startswith (c :: r) CRLF) eqn:E.
    + apply startswith_spec in E. destruct E as [rest E].
      injection E as -> ->.
      change ([LF] ++ replace_from CRLF [LF] (LF :: rest) (length CRLF - 1))
        with (LF :: replace_from CRLF [LF] rest 0).
      simpl forallb. rewrite IH; [reflexivity | simpl in L; lia].
    + simpl forallb. rewrite IH; [reflexivity | simpl in L; lia].
Qed.

(** Replacing the line ends leaves a blank text blank, and no other. *)
Lemma replace_crlf_blank s :
  forallb isspace (replace s CRLF [LF]) = forallb isspace s.
Proof. apply (replace_crlf_blank_le (length s)). lia. Qed.

Lemma normalize_empty_iff text :
  normalize text = [] <-> forallb isspace text = true.
Proof. unfold normalize. now rewrite strip_empty_iff, replace_crlf_blank. Qed.

(** C7. A text whose normalised, trimmed form has at most [CHUNK_SIZE]
    characters gives exactly one chunk, that form itself, unless the form is
    empty; an empty or whitespace-only text gives no chunk; and the form is
    empty exactly for the empty and the whitespace-only texts. *)
Theorem chunk_text_short (text : str) :
  (len (normalize text) <= Config.CHUNK_SIZE -> normalize text <> [] ->
   chunk_text text = [normalize text])
  /\ (forallb isspace text = true -> chunk_text text = [])
  /\ (normalize text = [] <-> forallb isspace text = true).
Proof.
  assert (len (normalize text) <= Config.CHUNK_SIZE ->
          chunk_text text = if is_empty (normalize text) then [] else [normalize text])
    as Short.
  { intros L. apply (chunk_text_of_fuel 0). unfold chunk_text_fuel.
    destruct (Z.leb_spec (len (normalize text)) Config.CHUNK_SIZE); [reflexivity | lia]. }
  split; [|split].
  - intros L N. rewrite (Short L). destruct (normalize text); [congruence | reflexivity].
  - intros B. apply normalize_empty_iff in B.
    rewrite Short; rewrite B; [reflexivity | now rewrite chunk_size_value].
  - apply normalize_empty_iff.
Qed.

(** *** A text without breaks *)

Lemma cut_point_no_breaks text start :
  contains text PARA_BREAK = false -> contains text SENT_BREAK = false ->
  cut_point text start = start + 1000.
Proof.
  intros P S. unfold cut_point. rewrite (rfind_absent _ _ _ _ P), (rfind_absent _ _ _ _ S).
  rewrite chunk_size_value. simpl (-1 >? 0). now destruct (_ <? _).
Qed.

Lemma loop_body_no_breaks text start chunks :
  0 <= start ->
  contains text PARA_BREAK = false -> contains text SENT_BREAK = false ->
  loop_body text (LoopState start chunks)
  = LoopState (start + 800)
      (if is_empty (strip (slice text start (start + 1000))) then chunks
       else chunks ++ [strip (slice text start (start + 1000))]).
Proof.
  intros Hs P S. unfold loop_body. simpl ls_start. simpl ls_chunks.
  rewrite (cut_point_no_breaks text start P S), chunk_overlap_value.
  destruct (Z.ltb_spec (start + 1000 - 200) 0); [lia|]. f_equal. lia.
Qed.

Lemma while_loop_step fuel text st :
  ls_start st < len text ->
  while_loop (S fuel) text st = while_loop fuel text (loop_body text st).
Proof. intros H. simpl. destruct (Z.ltb_spec (ls_start st) (len text)); [reflexivity | lia]. Qed.

Lemma while_loop_exit fuel text st :
  len text <= ls_start st -> while_loop (S fuel) text st = Some (ls_chunks st).
Proof. intros H. simpl. destruct (Z.ltb_spec (ls_start st) (len text)); [lia | reflexivity]. Qed.

Lemma slice_head (c : char) (r : str) hi :
  0 < hi -> exists r', slice (c :: r) 0 hi = c :: r'.
Proof.
  intros H. destruct (Z_le_gt_dec hi (len (c :: r))) as [L|G].
  - rewrite slice_inside by lia. change (skipn (Z.to_nat 0) (c :: r)) with (c :: r).
    destruct (Z.to_nat (hi - 0)) as [|n] eqn:E; [lia|]. simpl. eauto.
  - rewrite slice_to_end by lia. simpl. eauto.
Qed.

Lemma forallb_app_last {A : Type} (f : A -> bool) l z :
  f z = false -> forallb f (l ++ [z]) = false.
Proof. intros H. rewrite forallb_app. simpl. rewrite H. apply andb_false_r. Qed.

(** A slice that runs to the end of a string ending in [z] ends in [z]. *)
Lemma slice_last (r : str) (z : char) lo hi :
  0 <= lo < len (r ++ [z]) -> len (r ++ [z]) <= hi ->
  exists r', slice (r ++ [z]) lo hi = r' ++ [z].
Proof.
  intros H1 H2. rewrite slice_to_end by lia.
  exists (skipn (Z.to_nat lo) r). rewrite skipn_app.
  replace (Z.to_nat lo - length r)%nat with 0%nat; [reflexivity|].
  rewrite len_app in H1. unfold len in H1. simpl in H1. lia.
Qed.

(** The run of the loop on a text of 2500 characters without breaks. *)
Lemma while_loop_2500 text :
  len text = 2500 ->
  contains text PARA_BREAK = false -> contains text SENT_BREAK = false ->
  while_loop 5 text (LoopState 0 [])
  = Some (List.filter nonempty (map (fun w => strip (window text w)) windows_2500)).
Proof.
  intros L P S.
  rewrite while_loop_step by (simpl; lia).
  rewrite (loop_body_no_breaks text 0 _ ltac:(lia) P S).
  rewrite while_loop_step by (simpl; lia).
  rewrite (loop_body_no_breaks text (0 + 800) _ ltac:(lia) P S).
  rewrite while_loop_step by (simpl; lia).
  rewrite (loop_body_no_breaks text (0 + 800 + 800) _ ltac:(lia) P S).
  rewrite while_loop_step by (simpl; lia).
  rewrite (loop_body_no_breaks text (0 + 800 + 800 + 800) _ ltac:(lia) P S).
  rewrite while_loop_exit by (simpl; lia).
  cbn [ls_chunks]. f_equal.
  change (0 + 800 + 800 + 800) with 2400. change (0 + 800 + 800) with 1600.
  change (0 + 800) with 800. change (0 + 1000) with 1000.
  change (800 + 1000) with 1800. change (1600 + 1000) with 2600.
  change (2400 + 1000) with 3400.
  unfold windows_2500, window. cbn [map fst snd].
  rewrite (slice_to_end text 1600 2600), (slice_to_end text 2400 3400),
    (slice_to_end text 1600 2500), (slice_to_end text 2400 2500) by lia.
  unfold nonempty.
  destruct (strip (slice text 0 1000)), (strip (slice text 800 1800)),
    (strip (skipn (Z.to_nat 1600) text)), (strip (skipn (Z.to_nat 2400) text));
    reflexivity.
Qed.

(** A trimmed text of 2500 characters: its first, third and fourth windows
    are not blank. *)
Lemma windows_2500_not_blank text :
  len (normalize text) = 2500 ->
  strip (window (normalize text) (0, 1000)) <> []
  /\ strip (window (normalize text) (1600, 2500)) <> []
  /\ strip (window (normalize text) (2400, 2500)) <> [].
Proof.
  intros L. unfold window. cbn [fst snd].
  rewrite !strip_empty_iff.
  assert (exists c r, normalize text = c :: r /\ isspace c = false) as [c [r [E Hc]]].
  { destruct (normalize text) as [|c r] eqn:E; [discriminate|].
    exists c, r. split; [reflexivity|]. exact (strip_head _ _ _ E). }
  assert (exists r z, normalize text = r ++ [z] /\ isspace z = false) as [r' [z [E' Hz]]].
  { destruct (normalize text) as [|a l] eqn:E0 using rev_ind; [discriminate|].
    exists l, a. split; [reflexivity|]. exact (strip_last _ _ _ E0). }
  split; [|split].
  - rewrite E. destruct (slice_head c r 1000 ltac:(lia)) as [r0 ->].
    simpl. now rewrite Hc.
  - rewrite E'. rewrite E' in L.
    destruct (slice_last r' z 1600 2500 ltac:(lia) ltac:(lia)) as [r0 ->].
    rewrite (forallb_app_last _ _ _ Hz). discriminate.
  - rewrite E'. rewrite E' in L.
    destruct (slice_last r' z 2400 2500 ltac:(lia) ltac:(lia)) as [r0 ->].
    rewrite (forallb_app_last _ _ _ Hz). discriminate.
Qed.

(** C6, as amended. A text whose normalised, trimmed form has 2500 characters
    and contains neither a paragraph break nor a sentence break is cut into
    the windows [0,1000), [800,1800), [1600,2500) and [2400,2500); the chunks
    are the stripped windows that are not blank. The first, third and fourth
    are never blank, so there are four chunks when the second window holds a
    character that is not whitespace and three otherwise. Every chunk has at
    most 1000 characters and successive windows share 200, 200 and 100
    characters. *)
Theorem chunk_text_2500 (text : str) :
  len (normalize text) = 2500 ->
  contains (normalize text) PARA_BREAK = false ->
  contains (normalize text) SENT_BREAK = false ->
  chunk_text text
  = List.filter nonempty (map (fun w => strip (window (normalize text) w)) windows_2500)
  /\ (forallb isspace (window (normalize text) (800, 1800)) = false ->
      length (chunk_text text) = 4%nat)
  /\ (forallb isspace (window (normalize text) (800, 1800)) = true ->
      length (chunk_text text) = 3%nat)
  /\ Forall (fun chunk => len chunk <= 1000) (chunk_text text)
  /\ map (fun p => shared (fst p) (snd p))
         (combine windows_2500 (tl windows_2500)) = [200; 200; 100].
Proof.
  intros L P S.
  assert (chunk_text text
          = List.filter nonempty
              (map (fun w => strip (window (normalize text) w)) windows_2500)) as E.
  { apply (chunk_text_of_fuel 5). unfold chunk_text_fuel.
    destruct (Z.leb_spec (len (normalize text)) Config.CHUNK_SIZE) as [C|_];
      [rewrite chunk_size_value in C; lia|].
    exact (while_loop_2500 _ L P S). }
  destruct (windows_2500_not_blank text L) as [N1 [N3 N4]].
  split; [exact E|].
  split; [|split; [|split]].
  - intros B. rewrite E. unfold windows_2500. cbn [map List.filter].
    assert (strip (window (normalize text) (800, 1800)) <> []) as N2.
    { rewrite strip_empty_iff. congruence. }
    unfold nonempty.
    destruct (strip (window (normalize text) (0, 1000))); [congruence|].
    destruct (strip (window (normalize text) (800, 1800))); [congruence|].
    destruct (strip (window (normalize text) (1600, 2500))); [congruence|].
    destruct (strip (window (normalize text) (2400, 2500))); [congruence|].
    reflexivity.
  - intros B. rewrite E. unfold windows_2500. cbn [map List.filter].
    apply strip_empty_iff in B. rewrite B.
    unfold nonempty.
    destruct (strip (window (normalize text) (0, 1000))); [congruence|].
    destruct (strip (window (normalize text) (1600, 2500))); [congruence|].
    destruct (strip (window (normalize text) (2400, 2500))); [congruence|].
    reflexivity.
  - assert (Forall (chunk_ok (normalize text)) (chunk_text text)) as F.
    { rewrite E. eapply while_loop_chunk_ok; [| | exact (while_loop_2500 _ L P S)];
        [simpl; lia | constructor]. }
    eapply Forall_impl; [exact F|]. intros c [Hc _].
    now rewrite chunk_size_value in Hc.
  - reflexivity.
Qed.

Lemma chunk_text_2500_witness :
  len (normalize letters_2500) = 2500
  /\ contains (normalize letters_2500) PARA_BREAK = false
  /\ contains (normalize letters_2500) SENT_BREAK = false
  /\ length (chunk_text letters_2500) = 4%nat.
Proof.
  assert (len (normalize letters_2500) = 2500) as L by (vm_compute; reflexivity).
  assert (contains (normalize letters_2500) PARA_BREAK = false) as P
    by (vm_compute; reflexivity).
  assert (contains (normalize letters_2500) SENT_BREAK = false) as S
    by (vm_compute; reflexivity).
  split; [exact L|]. split; [exact P|]. split; [exact S|].
  destruct (chunk_text_2500 letters_2500 L P S) as [_ [Four _]].
  apply Four. vm_compute. reflexivity.
Defined.

(** C6, as stated, fails: 2500 ASCII characters without a paragraph or a
    sentence break and without whitespace at either end, whose second window
    is blank, give three chunks. *)
Lemma chunk_text_2500_three_chunks :
  length blank_window_2500 = 2500%nat
  /\ forallb (fun c => (c <? 128)%N) blank_window_2500 = true
  /\ contains blank_window_2500 PARA_BREAK = false
  /\ contains blank_window_2500 SENT_BREAK = false
  /\ strip blank_window_2500 = blank_window_2500
  /\ chunk_text blank_window_2500
     = [repeat 97%N 800; repeat 98%N 700; repeat 98%N 100].
Proof. vm_compute. repeat split; reflexivity. Qed.

(** ** Scores *)

Lemma SFcompare_antisym a b :
  SFcompare b a = option_map CompOpp (SFcompare a b).
Proof.
  destruct a as [sa|sa| |sa ma ea], b as [sb|sb| |sb mb eb]; simpl;
    try reflexivity; try (destruct sa; reflexivity); try (destruct sb; reflexivity);
    try (destruct sa, sb; reflexivity).
  destruct sa, sb; simpl; try reflexivity.
  - rewrite (Z.compare_antisym ea eb). destruct (ea ?= eb); simpl; try reflexivity.
    now rewrite (ZC4 mb ma).
  - rewrite (Z.compare_antisym ea eb). destruct (ea ?= eb); simpl; try reflexivity.
    now rewrite (ZC4 mb ma).
Qed.

Lemma SFcompare_some_refl a b c : SFcompare a b = Some c -> SFcompare b b = Some Eq.
Proof.
  destruct a as [sa|sa| |sa ma ea], b as [sb|sb| |sb mb eb]; simpl;
    try discriminate; intros _; try reflexivity; try (destruct sb; reflexivity).
  - destruct sb; now rewrite Z.compare_refl, Pos.compare_cont_refl.
  - destruct sb; now rewrite Z.compare_refl, Pos.compare_cont_refl.
  - destruct sb; now rewrite Z.compare_refl, Pos.compare_cont_refl.
Qed.

Lemma SFcompare_none_refl a b :
  SFcompare a a = Some Eq -> SFcompare a b = None -> SFcompare b b = None.
Proof.
  destruct a as [sa|sa| |sa ma ea], b as [sb|sb| |sb mb eb]; simpl;
    try discriminate; reflexivity.
Qed.

(** For a threshold that is a number: [x >= threshold] holds exactly when [x]
    is a number and [x < threshold] does not hold. *)
Lemma leb_iff_not_ltb (threshold x : float) :
  PrimFloat.is_nan threshold = false ->
  PrimFloat.leb threshold x = true
  <-> PrimFloat.is_nan x = false /\ PrimFloat.ltb x threshold = false.
Proof.
  unfold PrimFloat.is_nan.
  rewrite FloatAxioms.leb_spec, FloatAxioms.ltb_spec, !FloatAxioms.eqb_spec.
  unfold SFleb, SFltb, SFeqb. rewrite (SFcompare_antisym (Prim2SF threshold) (Prim2SF x)).
  intros T.
  assert (SFcompare (Prim2SF threshold) (Prim2SF threshold) = Some Eq) as T'.
  { destruct (SFcompare (Prim2SF threshold) (Prim2SF threshold)) as [[]|]; 
      simpl in T; congruence. }
  destruct (SFcompare (Prim2SF threshold) (Prim2SF x)) as [c|] eqn:E.
  - rewrite (SFcompare_some_refl _ _ _ E). destruct c; simpl; intuition congruence.
  - rewrite (SFcompare_none_refl _ _ T' E). simpl. intuition congruence.
Qed.

Lemma not_below_min_iff c :
  not_below_min c <-> PrimFloat.leb Config.MIN_SCORE (rm_score c) = true.
Proof. symmetry. apply leb_iff_not_ltb. reflexivity. Qed.

(** C2. The chat pipeline retains exactly the matches whose score is not
    below [MIN_SCORE = 0.7], in the order in which they were retrieved; of the
    scores 0.9, 0.5 and 0.75 it retains the first and the third. *)
Theorem relevant_retains_not_below (similar : list retrieved_match) :
  retains not_below_min similar (relevant similar)
  /\ relevant [scored 0.9; scored 0.5; scored 0.75] = [scored 0.9; scored 0.75].
Proof.
  split; [|reflexivity].
  induction similar as [|c similar IH]; [constructor|].
  unfold relevant in *. simpl.
  destruct (PrimFloat.leb Config.MIN_SCORE (rm_score c)) eqn:E.
  - apply retains_keep; [now apply not_below_min_iff | exact IH].
  - apply retains_drop; [|exact IH]. rewrite not_below_min_iff. congruence.
Qed.

(** ** Messages of the answer generator *)

Lemma append_history_traverse turns messages :
  append_history turns messages
  = let* sent := traverse history_message turns in Ok (messages ++ sent).
Proof.
  revert messages. induction turns as [|d turns IH]; intros messages; simpl.
  - now rewrite app_nil_r.
  - destruct (history_message d) as [e|m]; simpl; [reflexivity|].
    rewrite IH. destruct (traverse history_message turns) as [e|sent]; simpl;
      [reflexivity|]. now rewrite <- app_assoc.
Qed.

(** [h[-6:]] is the list of the last six elements, or all of them. *)
Lemma slice_last_six {A : Type} (h : list A) :
  slice h (-6) (len h) = skipn (length h - 6) h.
Proof.
  unfold slice, adjust_lo, adjust_hi, len. change (-6 <? 0) with true. cbv iota.
  destruct (Z.gtb_spec (Z.of_nat (length h)) (Z.of_nat (length h))); [lia|].
  destruct (Z.ltb_spec (Z.of_nat (length h)) 0); [lia|].
  replace (Z.to_nat (Z.min (Z.max (-6 + Z.of_nat (length h)) 0) (Z.of_nat (length h))))
    with (length h - 6)%nat by lia.
  apply firstn_all2. rewrite length_skipn. lia.
Qed.

(** The list that [generate_answer] sends: the system prompt, the context
    block or the notice, the last six turns, the question. *)
Lemma build_messages_shape question context history :
  build_messages question context history
  = let* sent := traverse history_message
                   (skipn (length (turns_of history) - 6) (turns_of history)) in
    Ok (system SYSTEM_PROMPT :: context_message context :: sent ++ [user question]).
Proof.
  unfold build_messages. destruct history as [[|d h]|]; try reflexivity.
  rewrite append_history_traverse, slice_last_six. simpl turns_of.
  destruct (traverse history_message _) as [e|sent]; reflexivity.
Qed.

Lemma history_message_ok (d : dict) m :
  history_message d = Ok m ->
  d !! lit "role" = Some (msg_role m) /\ d !! lit "content" = Some (msg_content m).
Proof.
  unfold history_message, getitem.
  destruct (d !! lit "role") as [r|]; [|discriminate].
  destruct (d !! lit "content") as [c|]; [|discriminate].
  unfold Ok. simpl. now intros [= <-].
Qed.

Lemma traverse_history_ok turns sent :
  traverse history_message turns = Ok sent ->
  Forall2 (fun (d : dict) m => d !! lit "role" = Some (msg_role m)
                               /\ d !! lit "content" = Some (msg_content m))
          turns sent.
Proof.
  revert sent. induction turns as [|d turns IH]; intros sent H; simpl in H.
  - unfold Ok in H. injection H as <-. constructor.
  - destruct (history_message d) as [e|m] eqn:M; [discriminate|]. simpl in H.
    destruct (traverse history_message turns) as [e|ms]; [discriminate|].
    unfold Ok in H. simpl in H. injection H as <-.
    constructor; [now apply history_message_ok | now apply IH].
Qed.

(** C9. Whatever the length of the history, the list sent to the answer
    generator is the system prompt, then the context message, then the last
    six turns of the history (all of them when there are fewer) in their
    order, then the question. A turn that lacks [role] or [content] raises
    before anything is sent. *)
Theorem build_messages_history (question context : str) (history : option (list dict)) :
  exists older recent : list dict,
    turns_of history = older ++ recent
    /\ length recent = Nat.min 6 (length (turns_of history))
    /\ build_messages question context history
       = (let* sent := traverse history_message recent in
          Ok ([system SYSTEM_PROMPT; context_message context] ++ sent ++ [user question]))
    /\ forall sent,
        traverse history_message recent = Ok sent ->
        (length sent <= 6)%nat
        /\ Forall2 (fun (d : dict) m => d !! lit "role" = Some (msg_role m)
                                        /\ d !! lit "content" = Some (msg_content m))
                   recent sent.
Proof.
  exists (firstn (length (turns_of history) - 6) (turns_of history)),
         (skipn (length (turns_of history) - 6) (turns_of history)).
  split; [now rewrite firstn_skipn|].
  split; [rewrite length_skipn; lia|].
  split; [apply build_messages_shape|].
  intros sent H. pose proof (traverse_history_ok _ _ H) as F. split; [|exact F].
  apply Forall2_length in F. rewrite <- F, length_skipn. lia.
Qed.

(** ** The chat endpoint *)

Lemma relevant_none similar :
  Forall (fun c => PrimFloat.leb Config.MIN_SCORE (rm_score c) = false) similar ->
  relevant similar = [].
Proof.
  induction 1 as [|c l H _ IH]; [reflexivity|].
  unfold relevant in *. simpl. now rewrite H.
Qed.

(** C8. When no retrieved match has a score of at least [MIN_SCORE], the
    context is the empty string, the message after the system prompt is the
    notice that no relevant documents were found, not a context block, and the
    sources of the response are empty. *)
Theorem chat_without_relevant {index : Type} (env : services index) (idx : index)
    (request : ChatRequest) (embedding : vector) (similar : list retrieved_match) :
  generate_embedding env (req_message request) = Ok embedding ->
  query_similar env idx embedding None = Ok similar ->
  Forall (fun c => PrimFloat.leb Config.MIN_SCORE (rm_score c) = false) similar ->
  build_context (relevant similar) = []
  /\ context_message (build_context (relevant similar)) = system NO_DOCUMENTS
  /\ chat env idx request
     = server_error
         (let* messages := build_messages (req_message request) [] (req_history request) in
          let* answer := call (chat_completion env messages) in
          Ok {| resp_answer := answer; resp_sources := [] |})
  /\ (forall messages,
        build_messages (req_message request) [] (req_history request) = Ok messages ->
        exists rest,
          messages = system SYSTEM_PROMPT :: system NO_DOCUMENTS :: rest)
  /\ (forall response, chat env idx request = Ok response -> resp_sources response = []).
Proof.
  intros He Hq Hn. pose proof (relevant_none similar Hn) as R.
  assert (chat env idx request
          = server_error
              (let* messages := build_messages (req_message request) [] (req_history request) in
               let* answer := call (chat_completion env messages) in
               Ok {| resp_answer := answer; resp_sources := [] |})) as C.
  { unfold chat. rewrite He. simpl bind. rewrite Hq. simpl bind. rewrite R.
    unfold generate_answer. simpl build_context. simpl map.
    destruct (build_messages _ _ _) as [e|ms]; [reflexivity|]. simpl.
    destruct (chat_completion env ms); reflexivity. }
  rewrite R. repeat split.
  - exact C.
  - intros messages H. rewrite build_messages_shape in H.
    destruct (traverse history_message _) as [e|sent]; [discriminate|].
    unfold Ok in H. simpl in H. injection H as <-. eexists. reflexivity.
  - intros response H. rewrite C in H.
    destruct (build_messages _ _ _) as [e|ms]; [discriminate|]. simpl in H.
    destruct (chat_completion env ms); [discriminate|].
    unfold Ok in H. simpl in H. now injection H as <-.
Qed.

(** ** The upload endpoint *)

Lemma extract_text_malformed {index : Type} (env : services index) file :
  malformed env file ->
  exists m, failure_message env file m /\ extract_text env file = raise (Exception m).
Proof.
  unfold malformed, failure_message, declared_format, extract_text.
  destruct (endswith (lower (lower_special env) (uf_filename file)) (lit ".pdf")).
  { intros [m E]. exists m. split; [exact E | now rewrite E]. }
  destruct (endswith (lower (lower_special env) (uf_filename file)) (lit ".docx")).
  { intros [m E]. exists m. split; [exact E | now rewrite E]. }
  destruct (endswith (lower (lower_special env) (uf_filename file)) (lit ".txt")
            || endswith (lower (lower_special env) (uf_filename file)) (lit ".md")
            || endswith (lower (lower_special env) (uf_filename file)) (lit ".csv")).
  { intros E. eexists. split; [split; [exact E | reflexivity] | now rewrite E]. }
  intros [].
Qed.

(** C3, as amended. An upload whose bytes are malformed for the format that
    its file name declares fails with status 500, the detail being the message
    of the parser or of the decoder, and leaves the index as it was. *)
Theorem upload_malformed_is_500 {index : Type} (env : services index) (idx : index)
    (file : UploadFile) :
  malformed env file ->
  exists detail,
    failure_message env file detail
    /\ upload env idx file = (raise (HTTPException 500 detail), idx).
Proof.
  intros M. destruct (extract_text_malformed env file M) as [m [F E]].
  exists m. split; [exact F|]. unfold upload, prepare_chunks. rewrite E. reflexivity.
Qed.

Lemma upload_malformed_is_500_witness :
  malformed sample_services broken_txt
  /\ upload sample_services [] broken_txt
     = (raise (HTTPException 500 (decode_error sample_services (uf_content broken_txt))),
        []).
Proof.
  assert (malformed sample_services broken_txt) as M by reflexivity.
  split; [exact M|].
  destruct (upload_malformed_is_500 sample_services [] broken_txt M) as [detail [F U]].
  assert (detail = decode_error sample_services (uf_content broken_txt)) as <-
    by exact (proj2 F).
  exact U.
Defined.

(** C3, as stated, fails: a [.txt] upload whose bytes are not UTF-8 is
    answered with status 500, which is not a client error. *)
Lemma upload_malformed_not_4xx :
  malformed sample_services broken_txt
  /\ fst (upload sample_services [] broken_txt)
     = raise (HTTPException 500 (lit "'utf-8' codec can't decode byte"))
  /\ ~ is_4xx 500.
Proof.
  split; [reflexivity|]. split; [reflexivity|]. unfold is_4xx. lia.
Qed.

Lemma build_records_length document_id filename uploaded_at total i pairs :
  length (build_records document_id filename uploaded_at total i pairs) = length pairs.
Proof.
  revert i. induction pairs as [|[t e] pairs IH]; intros i; simpl; [reflexivity|].
  now rewrite IH.
Qed.

Lemma build_records_nth document_id filename uploaded_at total pairs :
  forall i k r,
    nth_error (build_records document_id filename uploaded_at total i pairs) k = Some r ->
    cr_id r = document_id ++ lit "_chunk_" ++ str_of_int (i + Z.of_nat k)
    /\ md_document_id (cr_metadata r) = document_id
    /\ md_filename (cr_metadata r) = filename
    /\ md_uploaded_at (cr_metadata r) = uploaded_at
    /\ md_chunk_index (cr_metadata r) = i + Z.of_nat k
    /\ md_total_chunks (cr_metadata r) = total
    /\ md_is_first_chunk (cr_metadata r) = (i + Z.of_nat k =? 0)
    /\ nth_error pairs k = Some (md_text (cr_metadata r), cr_embedding r).
Proof.
  induction pairs as [|[t e] pairs IH]; intros i k r H.
  - destruct k; discriminate.
  - destruct k as [|k].
    + simpl in H. injection H as <-. simpl. rewrite Z.add_0_r. repeat split.
    + simpl in H. apply IH in H.
      replace (i + Z.of_nat (S k)) with (i + 1 + Z.of_nat k) by lia. exact H.
Qed.

Lemma build_records_not_first document_id filename uploaded_at total pairs i :
  0 < i ->
  Forall (fun r => md_is_first_chunk (cr_metadata r) = false)
         (build_records document_id filename uploaded_at total i pairs).
Proof.
  revert i. induction pairs as [|[t e] pairs IH]; intros i Hi; simpl; constructor.
  - simpl. destruct (Z.eqb_spec i 0); [lia | reflexivity].
  - apply IH. lia.
Qed.

Lemma nth_error_combine_fst {A B : Type} (l : list A) (l' : list B) k a b :
  nth_error (combine l l') k = Some (a, b) -> nth_error l k = Some a.
Proof.
  revert l' k. induction l as [|x l IH]; intros l' k H.
  - destruct k; discriminate.
  - destruct l' as [|y l']; [destruct k; discriminate|].
    destruct k as [|k]; simpl in *; [congruence | eauto].
Qed.

(** C4. After a successful ingestion by a provider that answers one vector
    for each text, there is one record for each chunk; all records carry the
    same [document_id] and the same [uploaded_at]; the record at position [i]
    has the id [{document_id}_chunk_{i}], [chunk_index = i] and
    [total_chunks] equal to the number of chunks; and the first record is the
    only one with [is_first_chunk] true. *)
Theorem upload_records {index : Type} (env : services index) (idx idx' : index)
    (file : UploadFile) (response : UploadResponse) :
  upload env idx file = (Ok response, idx') ->
  (forall texts embeddings,
      embed_batch env texts = inr embeddings -> length embeddings = length texts) ->
  exists (text_chunks : list str) (records : list chunk_record),
    prepare_chunks env file = Ok (text_chunks, records)
    /\ store_chunks env records idx = (None, idx')
    /\ up_document_id response = generate_document_id env
    /\ up_chunks response = len records
    /\ length records = length text_chunks
    /\ (forall i r,
          nth_error records i = Some r ->
          cr_id r = generate_document_id env ++ lit "_chunk_" ++ str_of_int (Z.of_nat i)
          /\ md_document_id (cr_metadata r) = generate_document_id env
          /\ md_uploaded_at (cr_metadata r) = utcnow_iso env
          /\ md_chunk_index (cr_metadata r) = Z.of_nat i
          /\ md_total_chunks (cr_metadata r) = len records
          /\ md_is_first_chunk (cr_metadata r) = (Z.of_nat i =? 0)
          /\ nth_error text_chunks i = Some (md_text (cr_metadata r)))
    /\ exists first rest,
        records = first :: rest
        /\ md_is_first_chunk (cr_metadata first) = true
        /\ Forall (fun r => md_is_first_chunk (cr_metadata r) = false) rest.
Proof.
  intros U Contract. unfold upload in U.
  destruct (prepare_chunks env file) as [e|[text_chunks records]] eqn:P.
  { destruct e; discriminate. }
  destruct (store_chunks env records idx) as [[e|] idx''] eqn:S; [discriminate|].
  unfold Ok in U. injection U as <- <-.
  exists text_chunks, records.
  unfold prepare_chunks in P.
  destruct (extract_text env file) as [e|text]; [discriminate|]. cbn [bind] in P.
  destruct (is_empty (strip text)); [discriminate|].
  destruct (chunk_text text) as [|c0 cs] eqn:C; [discriminate|].
  unfold generate_embeddings_batch in P.
  destruct (embed_batch env (c0 :: cs)) as [m|embeddings] eqn:B; [discriminate|].
  cbn [bind call] in P. unfold Ok in P. injection P as <- <-.
  pose proof (Contract _ _ B) as LenE.
  change (match embeddings with
          | [] => []
          | y :: tl' => (c0, y) :: combine cs tl'
          end) with (combine (c0 :: cs) embeddings).
  set (pairs := combine (c0 :: cs) embeddings).
  assert (length pairs = length (c0 :: cs)) as LenP.
  { subst pairs. rewrite length_combine. lia. }
  set (records := build_records (generate_document_id env) (uf_filename file)
                    (utcnow_iso env) (len (c0 :: cs)) 0 pairs) in *.
  assert (length records = length (c0 :: cs)) as LenR.
  { subst records. now rewrite build_records_length. }
  split; [reflexivity|]. split; [exact S|]. split; [reflexivity|].
  split; [cbn [up_chunks]; unfold len; now rewrite LenR|].
  split; [exact LenR|]. split.
  - intros i r H.
    destruct (build_records_nth _ _ _ _ _ 0 i r H)
      as (A1 & A2 & _ & A4 & A5 & A6 & A7 & A8).
    rewrite Z.add_0_l in *.
    repeat split; try assumption.
    + unfold len. now rewrite LenR.
    + exact (nth_error_combine_fst _ _ _ _ _ A8).
  - subst records. destruct pairs as [|[t e] pairs'] eqn:Ep; [simpl in LenP; lia|].
    simpl. eexists. eexists. split; [reflexivity|]. split; [reflexivity|].
    apply build_records_not_first. lia.
Qed.

Lemma upload_records_witness :
  exists (text_chunks : list str) (records : list chunk_record),
    prepare_chunks sample_services hello_txt = Ok (text_chunks, records)
    /\ length records = 1%nat
    /\ exists first rest,
        records = first :: rest
        /\ md_is_first_chunk (cr_metadata first) = true
        /\ Forall (fun r => md_is_first_chunk (cr_metadata r) = false) rest.
Proof.
  assert (forall texts embeddings,
             embed_batch sample_services texts = inr embeddings ->
             length embeddings = length texts) as Contract.
  { intros texts embeddings H. simpl in H. injection H as <-. apply length_map. }
  destruct (upload_records sample_services [] _ hello_txt _ eq_refl Contract)
    as (text_chunks & records & P & _ & _ & _ & L & _ & F).
  exists text_chunks, records. split; [exact P|]. split; [|exact F].
  rewrite L. vm_compute in P. unfold Ok in P. now injection P as <- _.
Defined.

(** ** Runs *)

Lemma cut_point_chooses_witness :
  0 <= 0
  /\ 0 + Config.CHUNK_SIZE < len two_paragraphs
  /\ exists i,
      nearest_break two_paragraphs PARA_BREAK
        (0 + Config.CHUNK_SIZE / 2) (0 + Config.CHUNK_SIZE) i
      /\ cut_point two_paragraphs 0 = i.
Proof.
  assert (0 <= 0) as H0 by lia.
  assert (0 + Config.CHUNK_SIZE < len two_paragraphs) as H1 by (vm_compute; reflexivity).
  split; [exact H0|]. split; [exact H1|].
  destruct (cut_point_chooses two_paragraphs 0 H0 H1) as [Para _].
  apply Para. exists 700. split; [vm_compute; discriminate|].
  split; [vm_compute; discriminate|].
  exists (repeat 97%N 700), (repeat 98%N 500). split; [reflexivity|].
  vm_compute. reflexivity.
Defined.

Lemma chat_without_relevant_witness :
  build_context (relevant [scored 0.5; scored 0.25]) = []
  /\ forall response,
      chat sample_services [] npv_request = Ok response -> resp_sources response = [].
Proof.
  assert (Forall (fun c => PrimFloat.leb Config.MIN_SCORE (rm_score c) = false)
                 [scored 0.5; scored 0.25]) as Low.
  { repeat constructor. }
  destruct (chat_without_relevant sample_services [] npv_request
              [1%float; 0%float] [scored 0.5; scored 0.25] eq_refl eq_refl Low)
    as (C & _ & _ & _ & S).
  split; [exact C | exact S].
Defined.

Example chunk_text_hello :
  chunk_text (lit "  hello world  ") = [lit "hello world"].
Proof. reflexivity. Qed.

Example chunk_text_blank : chunk_text [32%N; CR; LF; 9%N] = [].
Proof. reflexivity. Qed.

Example replace_crlf : replace [97%N; CR; LF; CR; CR; LF; 98%N] CRLF [LF]
                       = [97%N; LF; CR; LF; 98%N].
Proof. reflexivity. Qed.

Example rfind_last : rfind (lit "ab. cd. ef") SENT_BREAK 0 10 = 6.
Proof. reflexivity. Qed.

Example rfind_inside : rfind (lit "ab. cd. ef") SENT_BREAK 0 7 = 2.
Proof. reflexivity. Qed.

Example rfind_none : rfind (lit "ab. cd. ef") SENT_BREAK 3 6 = -1.
Proof. reflexivity. Qed.

Example slice_past_end : slice (lit "abcdef") 2 100 = lit "cdef".
Proof. reflexivity. Qed.

Example slice_negative : slice (lit "abcdef") (-2) 6 = lit "ef".
Proof. reflexivity. Qed.

Example decode_e_acute : utf8_decode [195%N; 169%N] = Some [233%N].
Proof. reflexivity. Qed.

Example decode_overlong : utf8_decode [192%N; 128%N] = None.
Proof. reflexivity. Qed.

Example chunk_text_two_paragraphs :
  chunk_text two_paragraphs
  = [repeat 97%N 700; repeat 97%N 200 ++ PARA_BREAK ++ repeat 98%N 500].
Proof. vm_compute. reflexivity. Qed.

Example chat_sample :
  chat sample_services [] npv_request
  = Ok {| resp_answer := lit "Please upload your course materials.";
          resp_sources := [] |}.
Proof. reflexivity. Qed.

Example upload_unsupported :
  fst (upload sample_services []
         {| uf_filename := lit "slides.pptx"; uf_content := [] |})
  = raise (HTTPException 400 (lit "Unsupported file type: slides.pptx")).
Proof. reflexivity. Qed.

(** * Further properties *)

(** ** The windows of the chunker *)

Lemma strip_idempotent s : strip (strip s) = strip s.
Proof.
  destruct (strip s) as [|a r] eqn:E; [reflexivity|].
  pose proof (strip_head _ _ _ E) as Ha.
  destruct r as [|b r] using rev_ind.
  - now apply strip_singleton.
  - apply strip_id; [exact Ha|]. clear IHr.
    change (a :: r ++ [b]) with ((a :: r) ++ [b]) in E.
    exact (strip_last _ _ _ E).
Qed.

Lemma windows_from_unfold fuel text start :
  windows_from (S fuel) text start
  = if start <? len text
    then (start, cut_point text start)
           :: windows_from fuel text (ls_start (loop_body text (LoopState start [])))
    else [].
Proof. reflexivity. Qed.

Lemma while_loop_windows fuel text st chunks :
  while_loop fuel text st = Some chunks ->
  chunks = ls_chunks st
           ++ List.filter nonempty
                (map (fun w => strip (window text w))
                     (windows_from fuel text (ls_start st))).
Proof.
  revert st. induction fuel as [|fuel IH]; intros st H; [discriminate|].
  simpl in H. rewrite windows_from_unfold.
  destruct (ls_start st <? len text).
  - apply IH in H. rewrite H. clear H IH.
    change (ls_start (loop_body text (LoopState (ls_start st) [])))
      with (ls_start (loop_body text st)).
    set (ws := windows_from fuel text (ls_start (loop_body text st))).
    set (c := strip (slice text (ls_start st) (cut_point text (ls_start st)))).
    assert (ls_chunks (loop_body text st)
            = if is_empty c then ls_chunks st else ls_chunks st ++ [c]) as ->
      by reflexivity.
    assert (List.filter nonempty
              (map (fun w => strip (window text w))
                   ((ls_start st, cut_point text (ls_start st)) :: ws))
            = if negb (is_empty c)
              then c :: List.filter nonempty (map (fun w => strip (window text w)) ws)
              else List.filter nonempty (map (fun w => strip (window text w)) ws)) as ->
      by reflexivity.
    destruct (is_empty c); cbn [negb]; [reflexivity|].
    now rewrite <- app_assoc.
  - injection H as <-. simpl. now rewrite app_nil_r.
Qed.

Lemma while_loop_chain fuel text st chunks :
  0 <= ls_start st ->
  while_loop fuel text st = Some chunks ->
  window_chain text (ls_start st) (windows_from fuel text (ls_start st)).
Proof.
  revert st. induction fuel as [|fuel IH]; intros st Hs H; [discriminate|].
  simpl in H. rewrite windows_from_unfold.
  destruct (Z.ltb_spec (ls_start st) (len text)) as [L|G].
  - pose proof (cut_point_bounds text (ls_start st) Hs) as B.
    apply chain_next; [exact L | exact B |].
    pose proof (loop_body_start text (LoopState (ls_start st) []) Hs) as E1.
    pose proof (loop_body_start text st Hs) as E2.
    cbn [ls_start] in E1. rewrite E1.
    specialize (IH (loop_body text st)). rewrite E2 in IH.
    apply IH; [lia | exact H].
  - now apply chain_end.
Qed.

(** A chain of windows leaves no gap. *)
Lemma window_chain_covers text start ws :
  window_chain text start ws ->
  forall p, start <= p < len text -> exists w, In w ws /\ fst w <= p < snd w.
Proof.
  induction 1 as [start G | start cut ws L B _ IH]; intros p Hp; [lia|].
  destruct (Z_lt_le_dec p cut) as [Lt|Ge].
  - exists (start, cut). split; [now left | simpl; lia].
  - destruct (IH p ltac:(lia)) as [w [Hin Hw]]. exists w. split; [now right | exact Hw].
Qed.

Lemma window_chain_bounds text start ws :
  0 <= start -> window_chain text start ws ->
  Forall (fun w => 0 <= fst w < len text /\ fst w + 500 <= snd w <= fst w + 1000) ws.
Proof.
  intros Hs C. induction C as [start G | start cut ws L B _ IH]; constructor.
  - simpl. lia.
  - apply IH. lia.
Qed.

Lemma window_chain_next text start ws :
  window_chain text start ws ->
  forall k w w', nth_error ws k = Some w -> nth_error ws (S k) = Some w' ->
                 fst w' = snd w - 200.
Proof.
  induction 1 as [start G | start cut ws L B C IH]; intros k w w' H1 H2.
  - destruct k; discriminate.
  - destruct k as [|k].
    + simpl in H1. injection H1 as <-. simpl in H2.
      inversion C; subst; simpl in H2; [discriminate|]. now injection H2 as <-.
    + simpl in H1, H2. exact (IH k w w' H1 H2).
Qed.

(** Each window moves on by at least 300 characters, which bounds their
    number. *)
Lemma window_chain_count text start ws :
  0 <= start -> window_chain text start ws ->
  ws = [] \/ 300 * len ws <= len text - start + 299.
Proof.
  intros Hs C. induction C as [start G | start cut ws L B _ IH]; [now left|].
  right. rewrite (len_app [(start, cut)] ws : len ((start, cut) :: ws) = _).
  change (len [(start, cut)]) with 1.
  destruct IH as [-> | IH]; [lia | | ].
  - change (len []) with 0. lia.
  - lia.
Qed.

Lemma chunk_text_long text :
  Config.CHUNK_SIZE < len (normalize text) ->
  while_loop (S (length (normalize text))) (normalize text) (LoopState 0 [])
  = Some (chunk_text text).
Proof.
  intros L. destruct (chunk_text_fuel_total text) as [chunks H].
  rewrite (chunk_text_of_fuel _ _ _ H). unfold chunk_text_fuel in H.
  destruct (Z.leb_spec (len (normalize text)) Config.CHUNK_SIZE); [lia | exact H].
Qed.

(** X1. For a text longer than [CHUNK_SIZE] after normalisation, the chunks
    are the stripped windows of the run that are not blank, in order. The
    windows leave no gap: every position of the text lies in one of them.
    Each window begins inside the text and is cut between 500 and 1000
    characters later, and each window but the first begins exactly 200
    characters before the cut of the one before. *)
Theorem chunk_text_windows (text : str) :
  Config.CHUNK_SIZE < len (normalize text) ->
  chunk_text text
  = List.filter nonempty
      (map (fun w => strip (window (normalize text) w)) (windows (normalize text)))
  /\ (forall p, 0 <= p < len (normalize text) ->
        exists w, In w (windows (normalize text)) /\ fst w <= p < snd w)
  /\ Forall (fun w => 0 <= fst w < len (normalize text)
                      /\ fst w + 500 <= snd w <= fst w + 1000)
            (windows (normalize text))
  /\ (forall k w w',
        nth_error (windows (normalize text)) k = Some w ->
        nth_error (windows (normalize text)) (S k) = Some w' ->
        fst w' = snd w - Config.CHUNK_OVERLAP).
Proof.
  intros L. pose proof (chunk_text_long text L) as H.
  pose proof (while_loop_windows _ _ _ _ H) as E.
  assert (0 <= ls_start (LoopState 0 [])) as Z0 by (simpl; lia).
  pose proof (while_loop_chain _ _ _ _ Z0 H) as C.
  cbn [ls_start ls_chunks app] in E, C. fold (windows (normalize text)) in E, C.
  split; [exact E|]. split; [|split].
  - intros p Hp. exact (window_chain_covers _ _ _ C p Hp).
  - apply (window_chain_bounds _ 0); [lia | exact C].
  - rewrite chunk_overlap_value. exact (window_chain_next _ _ _ C).
Qed.

Lemma chunk_text_windows_witness :
  chunk_text letters_2500
  = List.filter nonempty
      (map (fun w => strip (window (normalize letters_2500) w))
           (windows (normalize letters_2500))).
Proof.
  assert (Config.CHUNK_SIZE < len (normalize letters_2500)) as L
    by (vm_compute; reflexivity).
  exact (proj1 (chunk_text_windows letters_2500 L)).
Defined.

Lemma chunk_text_small text :
  len (normalize text) <= Config.CHUNK_SIZE ->
  chunk_text text = if is_empty (normalize text) then [] else [normalize text].
Proof.
  intros L. apply (chunk_text_of_fuel 0). unfold chunk_text_fuel.
  destruct (Z.leb_spec (len (normalize text)) Config.CHUNK_SIZE); [reflexivity | lia].
Qed.

Lemma nonempty_head_strip (c : char) (r : str) :
  isspace c = false -> nonempty (strip (c :: r)) = true.
Proof.
  intros Hc. unfold nonempty.
  destruct (strip (c :: r)) eqn:E; [|reflexivity].
  apply strip_empty_iff in E. simpl in E. rewrite Hc in E. discriminate.
Qed.

(** A text with a character that is not whitespace gives a chunk. *)
Lemma chunk_text_not_blank text :
  forallb isspace text = false -> chunk_text text <> [].
Proof.
  intros NB E.
  assert (normalize text <> []) as NE.
  { intros N. apply normalize_empty_iff in N. congruence. }
  destruct (Z_le_gt_dec (len (normalize text)) Config.CHUNK_SIZE) as [S|L].
  - rewrite (chunk_text_small text S) in E.
    destruct (normalize text); [congruence | discriminate].
  - pose proof (chunk_text_long text ltac:(lia)) as H.
    apply while_loop_windows in H. cbn [ls_start ls_chunks app] in H.
    rewrite E in H.
    destruct (normalize text) as [|c r] eqn:N; [congruence|].
    pose proof (strip_head _ _ _ N) as Hc.
    rewrite windows_from_unfold in H.
    assert (0 < len (c :: r)) as Pos by (unfold len; simpl; lia).
    destruct (Z.ltb_spec 0 (len (c :: r))) as [_|G]; [|lia].
    pose proof (cut_point_bounds (c :: r) 0 ltac:(lia)) as B.
    cbn [map List.filter window fst snd] in H.
    destruct (slice_head c r (cut_point (c :: r) 0) ltac:(lia)) as [r' R].
    change (window (c :: r) (0, cut_point (c :: r) 0))
      with (slice (c :: r) 0 (cut_point (c :: r) 0)) in H.
    rewrite R, (nonempty_head_strip c r' Hc) in H. discriminate.
Qed.

(** X2. [chunk_text] returns no chunk exactly when the text is empty or
    whitespace-only: a text with a character that is not whitespace always
    gives at least one chunk. *)
Theorem chunk_text_empty_iff (text : str) :
  chunk_text text = [] <-> forallb isspace text = true.
Proof.
  split.
  - intros E. destruct (forallb isspace text) eqn:B; [reflexivity|].
    exfalso. exact (chunk_text_not_blank text B E).
  - intros B. apply normalize_empty_iff in B.
    rewrite chunk_text_small; rewrite B; [reflexivity|].
    rewrite chunk_size_value. change (len (@nil char)) with 0. lia.
Qed.

Lemma stripped_chunks_clean {A : Type} (f : A -> str) (ws : list A) :
  Forall clean_chunk (List.filter nonempty (map (fun w => strip (f w)) ws)).
Proof.
  induction ws as [|w ws IH]; simpl; [constructor|].
  destruct (nonempty (strip (f w))) eqn:E; [|exact IH].
  constructor; [|exact IH]. split; [|apply strip_idempotent].
  unfold nonempty in E. now destruct (strip (f w)).
Qed.

(** X3. Every chunk that [chunk_text] returns is non-empty and has no
    whitespace at either end. *)
Theorem chunk_text_chunks_clean (text : str) :
  Forall (fun chunk => chunk <> [] /\ strip chunk = chunk) (chunk_text text).
Proof.
  change (Forall clean_chunk (chunk_text text)).
  destruct (Z_le_gt_dec (len (normalize text)) Config.CHUNK_SIZE) as [S|L].
  - rewrite (chunk_text_small text S).
    destruct (normalize text) eqn:N; simpl; constructor; [|constructor].
    split; [discriminate|]. rewrite <- N. apply strip_idempotent.
  - pose proof (chunk_text_long text ltac:(lia)) as H.
    apply while_loop_windows in H. cbn [ls_start ls_chunks app] in H.
    rewrite H. apply stripped_chunks_clean.
Qed.

Lemma filter_len_le {A : Type} (f : A -> bool) (l : list A) :
  len (List.filter f l) <= len l.
Proof.
  unfold len. induction l as [|a l IH]; simpl; [lia|].
  destruct (f a); simpl; lia.
Qed.

(** X4. The number of chunks is bounded by the length of the normalised
    text: each chunk after the first costs at least 300 characters, so
    [300 * len(chunks) <= len(text) + 299]. *)
Theorem chunk_text_count (text : str) :
  300 * len (chunk_text text) <= len (normalize text) + 299.
Proof.
  destruct (Z_le_gt_dec (len (normalize text)) Config.CHUNK_SIZE) as [S|L].
  - rewrite (chunk_text_small text S).
    destruct (normalize text) as [|c r] eqn:N; simpl is_empty; cbv iota.
    + change (len (@nil str)) with 0. change (len (@nil char)) with 0. lia.
    + change (len [c :: r]) with 1. unfold len. simpl. lia.
  - pose proof (chunk_text_long text ltac:(lia)) as H.
    pose proof (while_loop_windows _ _ _ _ H) as E.
    assert (0 <= ls_start (LoopState 0 [])) as Z0 by (simpl; lia).
    pose proof (while_loop_chain _ _ _ _ Z0 H) as C.
    cbn [ls_start ls_chunks app] in E, C. rewrite E.
    pose proof (filter_len_le nonempty
                  (map (fun w => strip (window (normalize text) w))
                       (windows_from (S (length (normalize text))) (normalize text) 0)))
      as F.
    unfold len in F at 2. rewrite length_map in F.
    fold (len (windows_from (S (length (normalize text))) (normalize text) 0)) in F.
    assert (0 <= 0) as Z00 by lia.
    destruct (window_chain_count _ _ _ Z00 C) as [N|N].
    + rewrite N in *. change (len (@nil (Z * Z))) with 0 in F.
      pose proof (len_nonneg (normalize text)). lia.
    + lia.
Qed.

(** ** Outcomes of an upload *)

Lemma extract_text_unsupported {index : Type} (env : services index) file :
  declared_format env (uf_filename file) = None ->
  extract_text env file
  = raise (HTTPException 400 (lit "Unsupported file type: " ++ lower (lower_special env) (uf_filename file))).
Proof.
  unfold declared_format, extract_text.
  destruct (endswith (lower (lower_special env) (uf_filename file)) (lit ".pdf")); [discriminate|].
  destruct (endswith (lower (lower_special env) (uf_filename file)) (lit ".docx")); [discriminate|].
  destruct (endswith (lower (lower_special env) (uf_filename file)) (lit ".txt")
            || endswith (lower (lower_special env) (uf_filename file)) (lit ".md")
            || endswith (lower (lower_special env) (uf_filename file)) (lit ".csv")); [discriminate|].
  reflexivity.
Qed.

Lemma extract_text_supported {index : Type} (env : services index) file fmt :
  declared_format env (uf_filename file) = Some fmt ->
  (exists m, extract_text env file = raise (Exception m))
  \/ (exists text, extract_text env file = Ok text).
Proof.
  unfold declared_format, extract_text.
  destruct (endswith (lower (lower_special env) (uf_filename file)) (lit ".pdf")).
  { intros _. destruct (pdf_pages env (uf_content file)); simpl; eauto. }
  destruct (endswith (lower (lower_special env) (uf_filename file)) (lit ".docx")).
  { intros _. destruct (docx_paragraphs env (uf_content file)); simpl; eauto. }
  destruct (endswith (lower (lower_special env) (uf_filename file)) (lit ".txt")
            || endswith (lower (lower_special env) (uf_filename file)) (lit ".md")
            || endswith (lower (lower_special env) (uf_filename file)) (lit ".csv")); [|discriminate].
  intros _. destruct (decode (uf_content file)); eauto.
Qed.

(** X5. Every upload ends in one of four ways: success; status 500; status
    400 for a file name whose extension is not supported; or status 400 for a
    file whose extracted text is empty or whitespace-only. In both cases of
    status 400 the index is left as it was. The detail "No content to
    process" is never answered. *)
Theorem upload_outcomes {index : Type} (env : services index) (idx : index)
    (file : UploadFile) :
  (exists response idx', upload env idx file = (Ok response, idx'))
  \/ (exists detail idx', upload env idx file = (raise (HTTPException 500 detail), idx'))
  \/ (declared_format env (uf_filename file) = None
      /\ upload env idx file
         = (raise (HTTPException 400
                     (lit "Unsupported file type: " ++ lower (lower_special env) (uf_filename file))), idx))
  \/ (exists text,
        extract_text env file = Ok text
        /\ forallb isspace text = true
        /\ upload env idx file
           = (raise (HTTPException 400 (lit "Could not extract text from file")), idx)).
Proof.
  unfold upload, prepare_chunks.
  destruct (declared_format env (uf_filename file)) as [fmt|] eqn:F.
  - destruct (extract_text_supported env file fmt F) as [[m E] | [text E]]; rewrite E.
    + right. left. exists m, idx. reflexivity.
    + cbn [bind Ok]. destruct (is_empty (strip text)) eqn:B.
      * right. right. right. exists text. split; [reflexivity|]. split; [|reflexivity].
        apply strip_empty_iff. now destruct (strip text).
      * assert (forallb isspace text = false) as NB.
        { destruct (forallb isspace text) eqn:W; [|reflexivity].
          apply strip_empty_iff in W. rewrite W in B. discriminate. }
        pose proof (chunk_text_not_blank text NB) as NE.
        destruct (chunk_text text) as [|c0 cs]; [congruence|].
        unfold generate_embeddings_batch.
        destruct (embed_batch env (c0 :: cs)) as [m|embeddings].
        { right. left. exists m, idx. reflexivity. }
        cbn [bind call Ok].
        destruct (store_chunks env _ idx) as [[e|] idx'].
        { right. left. exists e, idx'. reflexivity. }
        left. eexists. exists idx'. reflexivity.
  - right. right. left. split; [reflexivity|].
    now rewrite (extract_text_unsupported env file F).
Qed.

(** ** Batches of the store *)

Lemma store_batches_spec {index : Type} (env : services index) fuel :
  forall (chunks : list chunk_record) (idx : index),
    (length chunks <= 100 * fuel)%nat ->
    exists batches,
      concat batches = chunks
      /\ batch_sizes batches
      /\ store_batches env fuel chunks idx = upsert_all env batches idx.
Proof.
  induction fuel as [|fuel IH]; intros chunks idx L.
  - destruct chunks; [|simpl in L; lia]. exists []. repeat split. constructor.
  - destruct chunks as [|c chunks].
    { exists []. repeat split. constructor. }
    set (l := c :: chunks) in *.
    assert (l <> []) as NE by (subst l; discriminate).
    assert (store_batches env (S fuel) l idx
            = match upsert env (firstn 100 l) idx with
              | (Some e, idx') => (Some e, idx')
              | (None, idx') => store_batches env fuel (skipn 100 l) idx'
              end) as U by reflexivity.
    assert (0 < length l)%nat as Pos by (subst l; simpl; lia).
    clearbody l.
    destruct (Nat.le_gt_cases (length l) 100) as [Small|Big].
    + exists [l]. split; [cbn [concat]; apply app_nil_r|]. split.
      * constructor. lia.
      * rewrite U. rewrite firstn_all2 by lia. rewrite skipn_all2 by lia.
        simpl upsert_all. destruct (upsert env l idx) as [[e|] idx']; [reflexivity|].
        now destruct fuel.
    + destruct (upsert env (firstn 100 l) idx) as [[e|] idx'] eqn:Up.
      * destruct (IH (skipn 100 l) idx) as [bs [C [S _]]].
        { rewrite length_skipn. lia. }
        exists (firstn 100 l :: bs). split; [cbn [concat]; rewrite C; apply firstn_skipn|].
        split.
        -- destruct bs as [|b bs].
           ++ simpl in C. apply (f_equal (@length _)) in C.
              rewrite length_skipn in C. simpl in C. lia.
           ++ constructor; [rewrite length_firstn; lia | exact S].
        -- rewrite U. simpl upsert_all. now rewrite Up.
      * destruct (IH (skipn 100 l) idx') as [bs [C [S E]]].
        { rewrite length_skipn. lia. }
        exists (firstn 100 l :: bs). split; [cbn [concat]; rewrite C; apply firstn_skipn|].
        split.
        -- destruct bs as [|b bs].
           ++ simpl in C. apply (f_equal (@length _)) in C.
              rewrite length_skipn in C. simpl in C. lia.
           ++ constructor; [rewrite length_firstn; lia | exact S].
        -- rewrite U. simpl upsert_all. now rewrite Up.
Qed.

(** X6. [store_chunks] sends the records to the index in batches, one after
    the other: the batches put end to end are the list of records, every
    batch holds 100 records but the last, which holds between 1 and 100, and
    the first batch that fails ends the run, the index staying as that call
    left it. *)
Theorem store_chunks_batches {index : Type} (env : services index)
    (chunks : list chunk_record) (idx : index) :
  exists batches,
    concat batches = chunks
    /\ batch_sizes batches
    /\ store_chunks env chunks idx = upsert_all env batches idx.
Proof.
  unfold store_chunks. apply store_batches_spec. lia.
Qed.

(** ** Identifiers of the records *)

Lemma lit_inj s t : lit s = lit t -> s = t.
Proof.
  revert t. induction s as [|a s IH]; intros [|b t] H; try discriminate; [reflexivity|].
  simpl in H. injection H as Hab Hst. f_equal; [|now apply IH].
  unfold ord in Hab. rewrite <- (ascii_N_embedding a), <- (ascii_N_embedding b).
  now rewrite Hab.
Qed.

Lemma to_int_not_nil z :
  Z.to_int z <> Decimal.Pos Decimal.Nil /\ Z.to_int z <> Decimal.Neg Decimal.Nil.
Proof.
  split; intros E; pose proof (f_equal Z.of_int E) as Z0;
    rewrite DecimalZ.of_to in Z0; simpl in Z0; subst z; discriminate.
Qed.

(** The decimal form of an integer determines it. *)
Lemma str_of_int_inj a b : str_of_int a = str_of_int b -> a = b.
Proof.
  unfold str_of_int. intros E. apply lit_inj in E.
  apply DecimalZ.to_int_inj.
  destruct (to_int_not_nil a) as [A1 A2], (to_int_not_nil b) as [B1 B2].
  pose proof (NilZero.isi _ A1 A2) as Ia. pose proof (NilZero.isi _ B1 B2) as Ib.
  rewrite E in Ia. congruence.
Qed.

Lemma build_records_ids document_id filename uploaded_at total i pairs :
  List.NoDup (map cr_id (build_records document_id filename uploaded_at total i pairs)).
Proof.
  apply List.NoDup_nth_error. intros j k Hj E.
  rewrite !nth_error_map in E.
  rewrite length_map in Hj.
  destruct (nth_error (build_records _ _ _ _ _ _) j) as [rj|] eqn:Nj;
    [|apply nth_error_None in Nj; lia].
  destruct (nth_error (build_records _ _ _ _ _ _) k) as [rk|] eqn:Nk; [|discriminate].
  apply build_records_nth in Nj, Nk.
  destruct Nj as [Ij _], Nk as [Ik _]. simpl in E. injection E as E.
  rewrite Ij, Ik in E. apply app_inv_head in E. apply app_inv_head in E.
  apply str_of_int_inj in E. lia.
Qed.

(** X7. The records that an upload builds have pairwise distinct ids. *)
Theorem upload_record_ids {index : Type} (env : services index) (file : UploadFile)
    (text_chunks : list str) (records : list chunk_record) :
  prepare_chunks env file = Ok (text_chunks, records) ->
  List.NoDup (map cr_id records).
Proof.
  unfold prepare_chunks. intros P.
  destruct (extract_text env file) as [e|text]; [discriminate|]. cbn [bind] in P.
  destruct (is_empty (strip text)); [discriminate|].
  destruct (chunk_text text) as [|c0 cs]; [discriminate|].
  destruct (generate_embeddings_batch env (c0 :: cs)) as [e|embeddings]; [discriminate|].
  cbn [bind] in P. unfold Ok in P. injection P as _ <-.
  apply build_records_ids.
Qed.

Lemma upload_record_ids_witness :
  exists text_chunks records,
    prepare_chunks sample_services essay_txt = Ok (text_chunks, records)
    /\ length records = 4%nat
    /\ List.NoDup (map cr_id records).
Proof.
  let v := eval vm_compute in (prepare_chunks sample_services essay_txt) in
  assert (prepare_chunks sample_services essay_txt = v) as P
    by (vm_compute; reflexivity).
  match type of P with
  | _ = inr (?tc, ?rs) => exists tc, rs
  end.
  split; [exact P|]. split; [vm_compute; reflexivity|].
  exact (upload_record_ids sample_services essay_txt _ _ P).
Defined.

(** ** Extraction *)

Lemma lower_from_ascii special whole i s :
  forallb is_ascii s = true -> lower_from special whole i s = map lower_char s.
Proof.
  revert i. induction s as [|c r IH]; intros i H; [reflexivity|].
  simpl in H. apply andb_prop in H. destruct H as [Hc Hr].
  unfold is_ascii in Hc. simpl. rewrite Hc, (IH (S i) Hr). reflexivity.
Qed.

(** On an ASCII string the case tables are not consulted. *)
Lemma lower_ascii special s :
  forallb is_ascii s = true -> lower special s = map lower_char s.
Proof. apply lower_from_ascii. Qed.

Lemma lower_char_ascii c : is_ascii c = true -> is_ascii (lower_char c) = true.
Proof.
  unfold is_ascii, lower_char. intros H. apply N.ltb_lt in H.
  destruct ((65 <=? c) && (c <=? 90))%N eqn:U; apply N.ltb_lt; [|exact H].
  apply andb_prop in U. destruct U as [_ B]. apply N.leb_le in B. lia.
Qed.

Lemma lower_char_idempotent c : lower_char (lower_char c) = lower_char c.
Proof.
  unfold lower_char.
  destruct ((65 <=? c) && (c <=? 90))%N eqn:U; [|now rewrite U].
  apply andb_prop in U. destruct U as [A B].
  apply N.leb_le in A, B.
  destruct ((65 <=? c + 32) && (c + 32 <=? 90))%N eqn:V; [|reflexivity].
  apply andb_prop in V. destruct V as [_ V]. apply N.leb_le in V. lia.
Qed.

Lemma lower_ascii_idempotent special s :
  forallb is_ascii s = true -> lower special (lower special s) = lower special s.
Proof.
  intros H. rewrite (lower_ascii special s H).
  assert (forallb is_ascii (map lower_char s) = true) as H'.
  { clear -H. induction s as [|c r IH]; [reflexivity|].
    simpl in *. apply andb_prop in H. destruct H as [Hc Hr].
    now rewrite (lower_char_ascii c Hc), (IH Hr). }
  rewrite (lower_ascii special _ H'), map_map.
  apply map_ext. intros c. apply lower_char_idempotent.
Qed.

(** X8. For a file name of ASCII characters the extension is matched without
    regard to case: the outcome of [extract_text] is the same for the file
    name and for its lowercase form. *)
Theorem extract_text_case {index : Type} (env : services index)
    (filename : str) (content : list Byte.byte) :
  forallb is_ascii filename = true ->
  extract_text env {| uf_filename := filename; uf_content := content |}
  = extract_text env {| uf_filename := lower (lower_special env) filename;
                        uf_content := content |}.
Proof.
  intros A. unfold extract_text. cbn [uf_filename uf_content].
  now rewrite (lower_ascii_idempotent (lower_special env) filename A).
Qed.

Lemma extract_text_case_witness :
  extract_text sample_services capitals_txt = extract_text sample_services hello_txt.
Proof.
  exact (extract_text_case sample_services (uf_filename capitals_txt)
           (uf_content capitals_txt) eq_refl).
Defined.

Lemma utf8_decode_ascii bs :
  forallb is_ascii bs = true -> utf8_decode bs = Some bs.
Proof.
  induction bs as [|b bs IH]; [reflexivity|].
  simpl. intros [Hb Hr]%andb_prop. unfold is_ascii in Hb. rewrite Hb.
  now rewrite (IH Hr).
Qed.

(** X9. A text file whose bytes are all ASCII is extracted as it stands: one
    character for each byte, with the same code. *)
Theorem extract_text_ascii {index : Type} (env : services index) (file : UploadFile) :
  declared_format env (uf_filename file) = Some Text ->
  forallb is_ascii (map Byte.to_N (uf_content file)) = true ->
  extract_text env file = Ok (map Byte.to_N (uf_content file)).
Proof.
  unfold declared_format, extract_text. intros F A.
  destruct (endswith (lower (lower_special env) (uf_filename file)) (lit ".pdf")); [discriminate|].
  destruct (endswith (lower (lower_special env) (uf_filename file)) (lit ".docx")); [discriminate|].
  destruct (endswith (lower (lower_special env) (uf_filename file)) (lit ".txt")
            || endswith (lower (lower_special env) (uf_filename file)) (lit ".md")
            || endswith (lower (lower_special env) (uf_filename file)) (lit ".csv")); [|discriminate].
  unfold decode. now rewrite (utf8_decode_ascii _ A).
Qed.

Lemma extract_text_ascii_witness :
  extract_text sample_services hello_txt = Ok (lit "hello").
Proof.
  exact (extract_text_ascii sample_services hello_txt eq_refl eq_refl).
Defined.

(** ** History of a chat *)

Lemma recent_turns_app older recent :
  length recent = 6%nat -> recent_turns (Some (older ++ recent)) = recent.
Proof.
  intros L. unfold recent_turns. simpl turns_of. rewrite length_app, L.
  replace (length older + 6 - 6)%nat with (length older) by lia.
  now rewrite skipn_app, skipn_all, Nat.sub_diag.
Qed.

Lemma recent_turns_short recent :
  (length recent <= 6)%nat -> recent_turns (Some recent) = recent.
Proof.
  intros L. unfold recent_turns. simpl turns_of.
  now replace (length recent - 6)%nat with 0%nat by lia.
Qed.

Lemma build_messages_recent question context history :
  build_messages question context history
  = let* sent := traverse history_message (recent_turns history) in
    Ok (system SYSTEM_PROMPT :: context_message context :: sent ++ [user question]).
Proof. apply build_messages_shape. Qed.

(** X10. Only the last six turns of the history have an effect: a request
    answers the same with and without the turns before them, whatever those
    turns hold. *)
Theorem chat_history_truncated {index : Type} (env : services index) (idx : index)
    (request : ChatRequest) (older recent : list dict) :
  req_history request = Some (older ++ recent) ->
  length recent = 6%nat ->
  chat env idx request
  = chat env idx {| req_message := req_message request; req_history := Some recent |}.
Proof.
  intros H L. unfold chat. cbn [req_message req_history]. rewrite H.
  destruct (generate_embedding env (req_message request)) as [e|embedding];
    [reflexivity|]. cbn [bind].
  destruct (query_similar env idx embedding None) as [e|similar]; [reflexivity|].
  cbn [bind]. unfold generate_answer.
  rewrite !build_messages_recent, (recent_turns_app older recent L),
    (recent_turns_short recent ltac:(lia)).
  reflexivity.
Qed.

Lemma chat_history_truncated_witness :
  chat sample_services [] long_request
  = chat sample_services []
      {| req_message := req_message long_request; req_history := Some six_turns |}.
Proof.
  exact (chat_history_truncated sample_services [] long_request [∅] six_turns
           eq_refl eq_refl).
Defined.





(** ** Sources and context of a chat *)

Lemma format_source_preview c : preview_of (rm_text c) (src_text (format_source c)).
Proof.
  unfold preview_of, format_source. cbn [src_text].
  destruct (Z.gtb_spec (len (rm_text c)) 200) as [G|L]; split; intros H; try lia.
  - rewrite slice_inside by lia. change (Z.to_nat (200 - 0)) with 200%nat.
    change (skipn (Z.to_nat 0) (rm_text c)) with (rm_text c).
    split; [reflexivity|]. rewrite len_app. unfold len in *.
    rewrite length_firstn. simpl length. lia.
  - reflexivity.
Qed.

Lemma relevant_In c similar :
  In c (relevant similar)
  <-> In c similar /\ PrimFloat.leb Config.MIN_SCORE (rm_score c) = true.
Proof. unfold relevant. apply List.filter_In. Qed.

(** X12. The sources of a successful chat are the retained matches, one
    source for each and in their order, with the score and the file name of
    the match and a preview of its text: the text itself up to 200 characters,
    otherwise its first 200 characters followed by an ellipsis, 203 characters
    in all. Every source has a score of at least [MIN_SCORE], and there are no
    more sources than matches retrieved. *)
Theorem chat_sources {index : Type} (env : services index) (idx : index)
    (request : ChatRequest) (embedding : vector) (similar : list retrieved_match)
    (response : ChatResponse) :
  generate_embedding env (req_message request) = Ok embedding ->
  query_similar env idx embedding None = Ok similar ->
  chat env idx request = Ok response ->
  Forall2 (fun c s => src_score s = rm_score c
                      /\ src_filename s = rm_filename c
                      /\ preview_of (rm_text c) (src_text s))
          (relevant similar) (resp_sources response)
  /\ Forall (fun s => PrimFloat.leb Config.MIN_SCORE (src_score s) = true
                      /\ len (src_text s) <= 203)
            (resp_sources response)
  /\ len (resp_sources response) <= len similar.
Proof.
  intros He Hq C. unfold chat in C. rewrite He in C. cbn [bind Ok] in C.
  rewrite Hq in C. cbn [bind Ok] in C.
  destruct (generate_answer env _ _ _) as [e|answer]; [discriminate|].
  cbn [bind server_error Ok] in C. injection C as <-. cbn [resp_sources].
  split; [|split].
  - induction (relevant similar) as [|c l IH]; simpl; constructor; [|exact IH].
    split; [reflexivity|]. split; [reflexivity|]. apply format_source_preview.
  - apply List.Forall_forall. intros s Hs. apply in_map_iff in Hs.
    destruct Hs as [c [<- Hc]]. apply relevant_In in Hc. destruct Hc as [_ Hc].
    split; [exact Hc|].
    destruct (format_source_preview c) as [Short Long].
    destruct (Z_le_gt_dec (len (rm_text c)) 200) as [L|G].
    + rewrite (Short L). lia.
    + destruct (Long ltac:(lia)) as [_ ->]. lia.
  - unfold len. rewrite length_map. unfold relevant.
    pose proof (filter_len_le (fun c => PrimFloat.leb Config.MIN_SCORE (rm_score c)) similar)
      as F.
    exact F.
Qed.

Lemma chat_sources_witness :
  exists response,
    chat lecture_services [] npv_request = Ok response
    /\ len (resp_sources response) <= 2.
Proof.
  destruct (chat lecture_services [] npv_request) as [e|response] eqn:C;
    [vm_compute in C; discriminate|].
  exists response. split; [reflexivity|].
  exact (proj2 (proj2 (chat_sources lecture_services [] npv_request
                         [1%float; 0%float] [lecture_match; scored 0.5] response
                         eq_refl eq_refl C))).
Defined.

Lemma join_substring sep parts p : In p parts -> substring p (join sep parts).
Proof.
  induction parts as [|a parts IH]; intros H; [destruct H|].
  destruct parts as [|b parts].
  - destruct H as [<-|[]]. apply substring_refl.
  - change (join sep (a :: b :: parts)) with (a ++ sep ++ join sep (b :: parts)).
    destruct H as [<-|H].
    + exists [], (sep ++ join sep (b :: parts)). reflexivity.
    + destruct (IH H) as [pre [post E]].
      exists (a ++ sep ++ pre), post. rewrite E. now rewrite <- !app_assoc.
Qed.

Lemma substring_app_r a b : substring b (a ++ b).
Proof. exists a, []. now rewrite app_nil_r. Qed.

Lemma build_context_empty_iff (matches : list retrieved_match) :
  build_context matches = [] <-> matches = [].
Proof.
  split; [|now intros ->].
  destruct matches as [|c l]; [reflexivity|]. intros E. exfalso.
  unfold build_context in E.
  assert (substring (source_block c) (join SEPARATOR (map source_block (c :: l)))) as S.
  { apply join_substring. now left. }
  rewrite E in S. destruct S as [pre [post S]].
  destruct pre; discriminate.
Qed.

(** X13. The context is empty exactly when no match is retained. When a
    match is retained, the second message of the generator is the context
    block, not the notice, and the context holds the source block of every
    retained match, and so its text. *)
Theorem chat_context_block (similar : list retrieved_match) :
  (build_context (relevant similar) = [] <-> relevant similar = [])
  /\ (relevant similar <> [] ->
      context_message (build_context (relevant similar))
      = system (CONTEXT_HEAD ++ build_context (relevant similar) ++ CONTEXT_TAIL))
  /\ (forall c,
        In c similar -> PrimFloat.leb Config.MIN_SCORE (rm_score c) = true ->
        substring (source_block c) (build_context (relevant similar))
        /\ substring (rm_text c) (build_context (relevant similar))).
Proof.
  split; [apply build_context_empty_iff|]. split.
  - intros NE. unfold context_message.
    destruct (build_context (relevant similar)) eqn:E; [|reflexivity].
    apply build_context_empty_iff in E. contradiction.
  - intros c Hin Hs.
    assert (In c (relevant similar)) as R by (apply relevant_In; now split).
    assert (substring (source_block c) (build_context (relevant similar))) as S.
    { unfold build_context. destruct (relevant similar) as [|a l] eqn:E; [destruct R|].
      apply join_substring. now apply in_map. }
    split; [exact S|]. eapply substring_trans; [|exact S].
    unfold source_block. rewrite !app_assoc. apply substring_app_r.
Qed.

(** ** Listing the documents of an upload *)

Lemma metadata_dict_document md :
  document_of (metadata_dict md)
  = {| doc_id := Some (MStr (md_document_id md));
       doc_filename := Some (MStr (md_filename md));
       doc_chunks := MInt (md_total_chunks md);
       doc_uploaded_at := MStr (md_uploaded_at md) |}.
Proof.
  unfold document_of, metadata_dict.
  repeat (rewrite lookup_insert_ne by (vm_compute; discriminate) ||
          rewrite lookup_insert_eq).
  reflexivity.
Qed.

Lemma metadata_dict_not_empty md : bool_decide (metadata_dict md = ∅) = false.
Proof.
  apply bool_decide_eq_false. intros E.
  apply (f_equal (fun m : meta => m !! lit "text")) in E.
  unfold metadata_dict in E. rewrite lookup_insert_eq, lookup_empty in E. discriminate.
Qed.

(** X14. The listing reads what the upload wrote. After an upload by a
    provider that answers one vector for each text, the metadata of the
    records flagged as first chunk give exactly one document, with the id of
    the upload, the name of the file, the time of the upload and the number
    of its chunks. *)
Theorem list_documents_of_upload {index : Type} (env : services index)
    (file : UploadFile) (text_chunks : list str) (records : list chunk_record) :
  prepare_chunks env file = Ok (text_chunks, records) ->
  (forall texts embeddings,
      embed_batch env texts = inr embeddings -> length embeddings = length texts) ->
  collect_documents (first_chunk_matches records)
  = [{| doc_id := Some (MStr (generate_document_id env));
        doc_filename := Some (MStr (uf_filename file));
        doc_chunks := MInt (len text_chunks);
        doc_uploaded_at := MStr (utcnow_iso env) |}].
Proof.
  unfold prepare_chunks. intros P Contract.
  destruct (extract_text env file) as [e|text]; [discriminate|]. cbn [bind] in P.
  destruct (is_empty (strip text)); [discriminate|].
  destruct (chunk_text text) as [|c0 cs]; [discriminate|].
  unfold generate_embeddings_batch in P.
  destruct (embed_batch env (c0 :: cs)) as [m|embeddings] eqn:B; [discriminate|].
  cbn [bind call] in P. unfold Ok in P. injection P as <- <-.
  pose proof (Contract _ _ B) as L.
  destruct embeddings as [|e0 es]; [discriminate L|].
  unfold first_chunk_matches. cbn [combine build_records List.filter].
  cbn [cr_metadata md_is_first_chunk]. change (0 =? 0) with true. cbv iota.
  assert (List.filter (fun r => md_is_first_chunk (cr_metadata r))
            (build_records (generate_document_id env) (uf_filename file)
               (utcnow_iso env) (len (c0 :: cs)) (0 + 1) (combine cs es)) = []) as ->.
  { pose proof (build_records_not_first (generate_document_id env) (uf_filename file)
                  (utcnow_iso env) (len (c0 :: cs)) (combine cs es) (0 + 1) ltac:(lia))
      as F.
    induction F as [|r l Hr _ IH]; [reflexivity|]. simpl. now rewrite Hr. }
  cbn [map collect_documents].
  rewrite metadata_dict_not_empty, metadata_dict_document. reflexivity.
Qed.

Lemma list_documents_of_upload_witness :
  exists text_chunks records,
    prepare_chunks sample_services essay_txt = Ok (text_chunks, records)
    /\ length records = 4%nat
    /\ collect_documents (first_chunk_matches records)
       = [{| doc_id := Some (MStr (lit "doc_1700000000_qwerty"));
             doc_filename := Some (MStr (lit "essay.txt"));
             doc_chunks := MInt 4;
             doc_uploaded_at := MStr (lit "2023-11-14T22:13:20") |}].
Proof.
  assert (forall texts embeddings,
             embed_batch sample_services texts = inr embeddings ->
             length embeddings = length texts) as Contract.
  { intros texts embeddings H. simpl in H. injection H as <-. apply length_map. }
  let v := eval vm_compute in (prepare_chunks sample_services essay_txt) in
  assert (prepare_chunks sample_services essay_txt = v) as P
    by (vm_compute; reflexivity).
  match type of P with
  | _ = inr (?tc, ?rs) => exists tc, rs
  end.
  split; [exact P|]. split; [vm_compute; reflexivity|].
  exact (list_documents_of_upload sample_services essay_txt _ _ P Contract).
Defined.

(** ** Decoded text *)

Lemma option_map_cons_some (c : char) (o : option str) s :
  option_map (cons c) o = Some s -> exists s', o = Some s' /\ s = c :: s'.
Proof. destruct o as [s'|]; [|discriminate]. intros [= <-]. eauto. Qed.

Lemma in_range_spec lo hi b : in_range lo hi b = true -> (lo <= b <= hi)%N.
Proof.
  unfold in_range. intros [A B]%andb_prop. apply N.leb_le in A, B. lia.
Qed.

Lemma utf8_decode_scalar_le n :
  forall bs s,
    (length bs <= n)%nat -> utf8_decode bs = Some s ->
    Forall is_scalar s /\ (length s <= length bs)%nat.
Proof.
  unfold str, char in *.
  induction n as [|n IH]; intros bs s L H.
  - destruct bs; [|simpl in L; lia]. injection H as <-. split; [constructor | simpl; lia].
  - destruct bs as [|b0 r0]; [injection H as <-; split; [constructor | simpl; lia]|].
    simpl in L. cbn [utf8_decode] in H.
    destruct (N.ltb_spec b0 128) as [A|A].
    { apply option_map_cons_some in H. destruct H as [s' [H ->]].
      destruct (IH r0 s' ltac:(lia) H) as [F Ls].
      split; [constructor; [unfold is_scalar; lia | exact F] | simpl; lia]. }
    destruct (in_range 194 223 b0) eqn:R2.
    { apply in_range_spec in R2. destruct r0 as [|b1 r1]; [discriminate|].
      destruct (continuation b1) eqn:C1; [|discriminate].
      apply in_range_spec in C1.
      apply option_map_cons_some in H. destruct H as [s' [H ->]].
      simpl in L. destruct (IH r1 s' ltac:(lia) H) as [F Ls].
      split; [constructor; [unfold is_scalar; lia | exact F] | simpl; lia]. }
    destruct (in_range 224 239 b0) eqn:R3.
    { apply in_range_spec in R3. destruct r0 as [|b1 [|b2 r2]]; try discriminate.
      destruct (in_range _ _ b1 && continuation b2) eqn:C; [|discriminate].
      apply andb_prop in C. destruct C as [C1 C2].
      apply in_range_spec in C1, C2.
      apply option_map_cons_some in H. destruct H as [s' [H ->]].
      simpl in L. destruct (IH r2 s' ltac:(lia) H) as [F Ls].
      split; [|simpl; lia]. constructor; [|exact F]. unfold is_scalar.
      destruct (N.eqb_spec b0 224), (N.eqb_spec b0 237); lia. }
    destruct (in_range 240 244 b0) eqn:R4; [|discriminate].
    apply in_range_spec in R4. destruct r0 as [|b1 [|b2 [|b3 r3]]]; try discriminate.
    destruct (in_range _ _ b1 && continuation b2 && continuation b3) eqn:C;
      [|discriminate].
    apply andb_prop in C. destruct C as [C C3]. apply andb_prop in C.
    destruct C as [C1 C2]. apply in_range_spec in C1, C2, C3.
    apply option_map_cons_some in H. destruct H as [s' [H ->]].
    simpl in L. destruct (IH r3 s' ltac:(lia) H) as [F Ls].
    split; [|simpl; lia]. constructor; [|exact F]. unfold is_scalar.
    destruct (N.eqb_spec b0 240), (N.eqb_spec b0 244); lia.
Qed.

(** X15. The text extracted from a [.txt], [.md] or [.csv] file holds only
    Unicode scalar values (no surrogate, nothing above U+10FFFF) and at most
    one character for each byte of the file. *)
Theorem extract_text_scalars {index : Type} (env : services index) (file : UploadFile)
    (text : str) :
  declared_format env (uf_filename file) = Some Text ->
  extract_text env file = Ok text ->
  Forall is_scalar text /\ len text <= len (uf_content file).
Proof.
  unfold declared_format, extract_text. intros F E.
  destruct (endswith (lower (lower_special env) (uf_filename file)) (lit ".pdf")); [discriminate|].
  destruct (endswith (lower (lower_special env) (uf_filename file)) (lit ".docx")); [discriminate|].
  destruct (endswith (lower (lower_special env) (uf_filename file)) (lit ".txt")
            || endswith (lower (lower_special env) (uf_filename file)) (lit ".md")
            || endswith (lower (lower_special env) (uf_filename file)) (lit ".csv")); [|discriminate].
  unfold decode in E.
  destruct (utf8_decode (map Byte.to_N (uf_content file))) as [s|] eqn:D; [|discriminate].
  unfold Ok in E. injection E as <-.
  destruct (utf8_decode_scalar_le _ _ _ (Nat.le_refl _) D) as [S L].
  split; [exact S|]. unfold len. rewrite length_map in L. lia.
Qed.

Lemma extract_text_scalars_witness :
  Forall is_scalar (lit "hello") /\ len (lit "hello") <= len (uf_content hello_txt).
Proof.
  exact (extract_text_scalars sample_services hello_txt (lit "hello") eq_refl eq_refl).
Defined.

(** ** Document ids *)

Lemma uint_digits d c :
  In c (lit (NilEmpty.string_of_uint d)) -> (48 <= c <= 57)%N.
Proof.
  induction d as [|d IH|d IH|d IH|d IH|d IH|d IH|d IH|d IH|d IH|d IH];
    simpl; intros H; [destruct H| | | | | | | | | |];
    (destruct H as [<-|H]; [vm_compute; split; discriminate | exact (IH H)]).
Qed.

(** The decimal form of an integer holds no underscore. *)
Lemma str_of_int_no_underscore z : ~ In 95%N (str_of_int z).
Proof.
  unfold str_of_int. intros H.
  assert (forall d, In 95%N (lit (NilZero.string_of_uint d)) -> False) as U.
  { intros d Hd. destruct d; simpl in Hd;
      try (destruct Hd as [E|Hd]; [discriminate E|]);
      try (destruct Hd);
      apply uint_digits in Hd; lia. }
  destruct (Z.to_int z) as [d|d]; simpl in H.
  - exact (U d H).
  - destruct H as [E|H]; [discriminate E | exact (U d H)].
Qed.

Lemma split_at_first {A : Type} (x : A) a a' l l' :
  ~ In x a -> ~ In x a' -> a ++ x :: l = a' ++ x :: l' -> a = a' /\ l = l'.
Proof.
  revert a'. induction a as [|y a IH]; intros [|y' a'] Na Na' E; simpl in *.
  - injection E as <-. now split.
  - injection E as <- _. exfalso. apply Na'. now left.
  - injection E as -> _. exfalso. apply Na. now left.
  - injection E as <- E. destruct (IH a') as [<- <-]; [tauto | tauto | exact E |].
    now split.
Qed.

(** X16. Two uploads are given the same document id exactly when they are
    made in the same second and draw the same random letters. *)
Theorem document_id_collision {index index' : Type}
    (env : services index) (env' : services index') :
  generate_document_id env = generate_document_id env'
  <-> time_now env = time_now env' /\ random_letters env = random_letters env'.
Proof.
  unfold generate_document_id. split.
  - intros E. apply app_inv_head in E.
    change (lit "_" ++ random_letters env) with (95%N :: random_letters env) in E.
    change (lit "_" ++ random_letters env') with (95%N :: random_letters env') in E.
    destruct (split_at_first _ _ _ _ _ (str_of_int_no_underscore _)
                (str_of_int_no_underscore _) E) as [T R].
    split; [now apply str_of_int_inj | exact R].
  - intros [-> ->]. reflexivity.
Qed.
